(** * ResumeAutomate: the bold-markup translator and the context rewriter

    A shallow embedding of [attempt_to_parse_markdown] and
    [process_context_for_richtext] of [main.py], and the properties of the
    specification that concern them.

    - Python [str] values are [string]s, their characters [ascii]; the
      code tells apart only the asterisk and the line feed. Indices and
      lengths are [nat].
    - [re.finditer(r'\*\*(.*?)\*\*', s)] is modelled by [finditer]: the
      leftmost, non-overlapping matches of two asterisks, a lazy run of
      characters other than the line feed, two asterisks.
    - docxtpl's [RichText] is the list of the runs that were added to it.
    - The context rewriter runs in a state-and-error monad over a store of
      mutable objects (dicts, lists, [RichText]s), so that aliasing between
      the input and the output is visible. *)

From stdpp Require Import gmap strings list fin_maps.
From Stdlib Require Import Ascii ZArith.

(** ** Python string operations *)

Module PyStr.

(** [len(s)] *)
Fixpoint len (s : string) : nat :=
  match s with
  | EmptyString => 0
  | String _ s' => S (len s')
  end.

(** [s[n:]] *)
Fixpoint drop (n : nat) (s : string) : string :=
  match n, s with
  | S n', String _ s' => drop n' s'
  | _, _ => s
  end.

(** [s[:n]] *)
Fixpoint take (n : nat) (s : string) : string :=
  match n, s with
  | S n', String c s' => String c (take n' s')
  | _, _ => EmptyString
  end.

(** [s[a:b]] for non-negative [a] and [b] *)
Definition slice (a b : nat) (s : string) : string := take (b - a) (drop a s).

(** the truth value of a string: [bool(s)] *)
Definition truthy (s : string) : bool :=
  match s with
  | EmptyString => false
  | String _ _ => true
  end.

(** [c in s] for a single character [c] *)
Fixpoint mem (c : ascii) (s : string) : bool :=
  match s with
  | EmptyString => false
  | String a s' => Ascii.eqb a c || mem c s'
  end.

End PyStr.

(** ** The regular expression [\*\*(.*?)\*\*] *)

Definition star : ascii := "*"%char.
Definition line_feed : ascii := "010"%char.

Definition is_star (c : ascii) : bool := Ascii.eqb c star.

(** [s] begins with the two-character delimiter *)
Definition starts_with_stars (s : string) : bool :=
  match s with
  | String a (String b _) => is_star a && is_star b
  | _ => false
  end.

(** The lazy group followed by the closing delimiter, tried on [s]: the
    number of characters the group [(.*?)] takes. The group grows one
    character at a time, the dot refusing the line feed, until the closing
    delimiter is found. *)
Fixpoint lazy_close (s : string) : option nat :=
  if starts_with_stars s then Some 0
  else match s with
       | EmptyString => None
       | String c s' => if Ascii.eqb c line_feed then None else S <$> lazy_close s'
       end.

(** The whole pattern tried at the head of [s]: the length of group 1. *)
Definition match_at (s : string) : option nat :=
  if starts_with_stars s then lazy_close (PyStr.drop 2 s) else None.

(** A match object: [m.start()], [m.end()] and [m.group(1)]. *)
Record re_match : Type := ReMatch {
  m_start : nat;
  m_end : nat;
  m_group1 : string
}.

(** The scan of [finditer] over the suffix [s] that starts at index [pos]: a
    match is reported and the scan resumes at its end, otherwise it moves one
    character on. [fuel] bounds the number of steps. *)
Fixpoint finditer_from (fuel : nat) (pos : nat) (s : string) : list re_match :=
  match fuel with
  | O => []
  | S fuel' =>
      match s with
      | EmptyString => []
      | String _ s' =>
          match match_at s with
          | Some k =>
              ReMatch pos (pos + k + 4) (PyStr.take k (PyStr.drop 2 s))
                :: finditer_from fuel' (pos + k + 4) (PyStr.drop (k + 4) s)
          | None => finditer_from fuel' (pos + 1) s'
          end
      end
  end.

(** [list(re.finditer(r'\*\*(.*?)\*\*', text))] *)
Definition finditer (text : string) : list re_match :=
  finditer_from (S (PyStr.len text)) 0 text.

(** ** docxtpl's RichText *)

Record Run : Type := MkRun {
  run_text : string;
  run_bold : bool;
  run_font : string;
  run_size : nat
}.

(** A [RichText] is the sequence of runs added to it so far. *)
Definition RichText : Type := list Run.

(** [rt.add(text, bold=bold, font=font, size=size)] *)
Definition RichText_add (rt : RichText) (text : string) (bold : bool)
    (font : string) (size : nat) : RichText :=
  rt ++ [MkRun text bold font size].

(** ** attempt_to_parse_markdown *)

(** One iteration of [for match in matches], on the pair of the loop's
    variables [rt] and [last_index]. *)
Definition parse_step (text_value : string) (st : RichText * nat) (m : re_match)
    : RichText * nat :=
  let '(rt, last_index) := st in
  let start_of_match := m_start m in
  let rt :=
    if last_index <? start_of_match
    then RichText_add rt (PyStr.slice last_index start_of_match text_value)
           false "Calibri" 22
    else rt in
  let bold_text := m_group1 m in
  let rt :=
    if PyStr.truthy bold_text
    then RichText_add rt bold_text true "Calibri" 22
    else rt in
  (rt, m_end m).

Definition attempt_to_parse_markdown (text_value : string) : RichText :=
  let rt : RichText := [] in
  let last_index := 0 in
  let matches := finditer text_value in
  match matches with
  | [] => RichText_add rt text_value false "Calibri" 22
  | _ :: _ =>
      let '(rt, last_index) :=
        foldl (parse_step text_value) (rt, last_index) matches in
      if last_index <? PyStr.len text_value
      then RichText_add rt (PyStr.drop last_index text_value) false "Calibri" 22
      else rt
  end.

(** Runs as the specification writes them: text and bold flag, with the
    fixed font and size. *)
Definition plain (t : string) : Run := MkRun t false "Calibri" 22.
Definition bolded (t : string) : Run := MkRun t true "Calibri" 22.

(** The visible text of a [RichText]: the texts of its runs, in order. *)
Definition visible_text (rt : RichText) : string :=
  foldr (fun r acc => run_text r +:+ acc) "" rt.

(** ** The markup of the specification *)

(** [s] contains the two-character delimiter somewhere. *)
Fixpoint contains_stars (s : string) : bool :=
  match s with
  | EmptyString => false
  | String _ s' => starts_with_stars s || contains_stars s'
  end.

(** The last character of [s] is an asterisk. *)
Fixpoint ends_with_star (s : string) : bool :=
  match s with
  | EmptyString => false
  | String c EmptyString => is_star c
  | String _ s' => ends_with_star s'
  end.

(** A bold-marker pair as the regular expression finds it: the delimiter,
    an inner text without line feed, the delimiter. *)
Definition has_bold_pair (s : string) : Prop :=
  exists a b c : string,
    s = a +:+ "**" +:+ b +:+ "**" +:+ c /\ PyStr.mem line_feed b = false.

(** The offset of the first delimiter in [s], whatever the characters
    before it: "the shortest possible run of any characters, then two
    asterisks". *)
Fixpoint any_close (s : string) : option nat :=
  if starts_with_stars s then Some 0
  else match s with
       | EmptyString => None
       | String _ s' => S <$> any_close s'
       end.

(** Removal of delimiter pairs, left to right and without overlap; [close]
    finds the closing delimiter of a pair whose opening one was just read. *)
Fixpoint strip_with (close : string -> option nat) (fuel : nat) (s : string)
    : string :=
  match fuel with
  | O => s
  | S fuel' =>
      match s with
      | EmptyString => EmptyString
      | String c s' =>
          match (if starts_with_stars s then close (PyStr.drop 2 s) else None) with
          | Some k =>
              PyStr.take k (PyStr.drop 2 s)
                +:+ strip_with close fuel' (PyStr.drop (k + 4) s)
          | None => String c (strip_with close fuel' s')
          end
      end
  end.

(** [s] with every delimiter pair stripped, a pair being, in the words of
    the specification, two asterisks, the shortest possible run of any
    characters, two asterisks. *)
Definition strip_pairs_spec (s : string) : string :=
  strip_with any_close (S (PyStr.len s)) s.

(** [s] with every delimiter pair stripped whose inner text holds no line
    feed: what [re.sub(r'\*\*(.*?)\*\*', r'\1', s)] returns. *)
Definition strip_pairs (s : string) : string :=
  strip_with lazy_close (S (PyStr.len s)) s.

(** A plain run for [t], none when [t] is empty. *)
Definition plain_unless_empty (t : string) : RichText :=
  if PyStr.truthy t then [plain t] else [].

(** ** The object store *)

Definition loc : Type := positive.

(** A Python value: an immutable value itself, or a reference to a mutable
    object of the store. A float is its mantissa and exponent. *)
Inductive pyval : Type :=
  | PNone
  | PBool (b : bool)
  | PInt (n : Z)
  | PFloat (m e : Z)
  | PStr (s : string)
  | PRef (l : loc).

Inductive pyobj : Type :=
  | OList (items : list pyval)
  | ODict (entries : gmap string pyval)
  | ORichText (rt : RichText).

Abbreviation heap := (gmap loc pyobj).

(** Computations that read and write the store and may raise. *)
Definition M (A : Type) : Type := heap -> option (A * heap).

#[global] Instance M_ret : MRet M := fun A x h => Some (x, h).
#[global] Instance M_bind : MBind M := fun A B f m h =>
  match m h with
  | Some (x, h') => f x h'
  | None => None
  end.

(** A new object, at an address the store does not use. *)
Definition alloc (o : pyobj) : M pyval := fun h =>
  let l := fresh (dom h) in Some (PRef l, <[l := o]> h).

(** [isinstance(v, list)] *)
Definition isinstance_list (v : pyval) : M bool := fun h =>
  Some (match v with
        | PRef l => match h !! l with Some (OList _) => true | _ => false end
        | _ => false
        end, h).

(** The string behind [v] when [isinstance(v, str)]. *)
Definition as_str (v : pyval) : option string :=
  match v with
  | PStr s => Some s
  | _ => None
  end.

(** The elements a [for] loop over the list [v] visits: those [v] holds
    when the loop starts. The loop of the rewriter writes to no object that
    was in the store before it ([process_items_spec] below), so the list it
    iterates stays as it is while the loop runs. *)
Definition list_items (v : pyval) : M (list pyval) := fun h =>
  match v with
  | PRef l => match h !! l with Some (OList xs) => Some (xs, h) | _ => None end
  | _ => None
  end.

(** [v.append(x)] *)
Definition list_append (v x : pyval) : M unit := fun h =>
  match v with
  | PRef l =>
      match h !! l with
      | Some (OList xs) => Some (tt, <[l := OList (xs ++ [x])]> h)
      | _ => None
      end
  | _ => None
  end.

(** [v.items()], in the order of iteration. The order of [map_to_list]
    stands for the insertion order of the dict; it decides which addresses
    the new objects get and nothing else. *)
Definition dict_items (v : pyval) : M (list (string * pyval)) := fun h =>
  match v with
  | PRef l => match h !! l with Some (ODict d) => Some (map_to_list d, h) | _ => None end
  | _ => None
  end.

(** [v[key] = x] *)
Definition dict_setitem (v : pyval) (key : string) (x : pyval) : M unit := fun h =>
  match v with
  | PRef l =>
      match h !! l with
      | Some (ODict d) => Some (tt, <[l := ODict (<[key := x]> d)]> h)
      | _ => None
      end
  | _ => None
  end.

(** [for x in xs: body(x)] *)
Fixpoint for_each {A : Type} (xs : list A) (body : A -> M unit) : M unit :=
  match xs with
  | [] => mret tt
  | x :: xs' => body x ;; for_each xs' body
  end.

(** ** process_context_for_richtext *)

Definition list_fields : list string :=
  ["SUMMARY"; "RESPONSIBILITIES_CH"; "RESPONSIBILITIES_SS"; "RESPONSIBILITIES_SM"].

Definition scalar_fields : list string :=
  ["ENGAGEMENT_SUMMARY_CH"; "ENGAGEMENT_SUMMARY_SS"; "ENGAGEMENT_SUMMARY_SM"].

(** The body of [for item in value]. *)
Definition process_item (processed_list : pyval) (item : pyval) : M unit :=
  match as_str item with
  | Some s =>
      rt ← alloc (ORichText (attempt_to_parse_markdown s));
      list_append processed_list rt
  | None => list_append processed_list item
  end.

(** The body of [for key, value in context_data.items()]. Both tests of
    the [if] and of the [elif] read the store and write nothing, so the
    order in which [and] evaluates them does not show. *)
Definition process_entry (processed_context : pyval) (entry : string * pyval)
    : M unit :=
  let '(key, value) := entry in
  is_list ← isinstance_list value;
  if bool_decide (key ∈ list_fields) && is_list then
    processed_list ← alloc (OList []);
    items ← list_items value;
    for_each items (process_item processed_list);;
    dict_setitem processed_context key processed_list
  else
    match (if bool_decide (key ∈ scalar_fields) then as_str value else None) with
    | Some s =>
        rt ← alloc (ORichText (attempt_to_parse_markdown s));
        dict_setitem processed_context key rt
    | None => dict_setitem processed_context key value
    end.

Definition process_context_for_richtext (context_data : pyval) : M pyval :=
  processed_context ← alloc (ODict ∅);
  entries ← dict_items context_data;
  for_each entries (process_entry processed_context);;
  mret processed_context.

(** ** The runs read off the text *)

(** The loop of [attempt_to_parse_markdown] read off the text itself: [s]
    is what is left to scan, [pending] the literal text read since the
    last match. *)
Fixpoint runs_from (fuel : nat) (pending : string) (s : string) : RichText :=
  match fuel with
  | O => []
  | S fuel' =>
      match s with
      | EmptyString => plain_unless_empty pending
      | String c s' =>
          match match_at s with
          | Some k =>
              let inner := PyStr.take k (PyStr.drop 2 s) in
              plain_unless_empty pending
                ++ (if PyStr.truthy inner then [bolded inner] else [])
                ++ runs_from fuel' "" (PyStr.drop (k + 4) s)
          | None => runs_from fuel' (pending +:+ String c "") s'
          end
      end
  end.

Definition runs (pending : string) (s : string) : RichText :=
  runs_from (S (PyStr.len s)) pending s.

(** What [attempt_to_parse_markdown] does after its loop. *)
Definition parse_finish (text_value : string) (st : RichText * nat) : RichText :=
  let '(rt, last_index) := st in
  if last_index <? PyStr.len text_value
  then RichText_add rt (PyStr.drop last_index text_value) false "Calibri" 22
  else rt.

(** ** Reading the store *)

(** The elements of [v] when it is a list of the store. *)
Definition list_at (h : heap) (v : pyval) : option (list pyval) :=
  match v with
  | PRef l => match h !! l with Some (OList xs) => Some xs | _ => None end
  | _ => None
  end.

(** The entries of [v] when it is a dict of the store. *)
Definition dict_at (h : heap) (v : pyval) : option (gmap string pyval) :=
  match v with
  | PRef l => match h !! l with Some (ODict d) => Some d | _ => None end
  | _ => None
  end.

(** The runs of [v] when it is a [RichText] of the store. *)
Definition richtext_at (h : heap) (v : pyval) : option RichText :=
  match v with
  | PRef l => match h !! l with Some (ORichText rt) => Some rt | _ => None end
  | _ => None
  end.

(** A store without dangling references: every reference held by an
    object of the store is an address of the store. *)
Definition val_closed (D : gset loc) (v : pyval) : Prop :=
  match v with
  | PRef l => l ∈ D
  | _ => True
  end.

Definition obj_closed (D : gset loc) (o : pyobj) : Prop :=
  match o with
  | OList xs => Forall (val_closed D) xs
  | ODict d => map_Forall (fun _ => val_closed D) d
  | ORichText _ => True
  end.

Definition heap_closed (h : heap) : Prop :=
  map_Forall (fun _ => obj_closed (dom h)) h.

#[global] Instance val_closed_dec D v : Decision (val_closed D v).
Proof. destruct v; simpl; apply _. Defined.

#[global] Instance obj_closed_dec D o : Decision (obj_closed D o).
Proof. destruct o; simpl; apply _. Defined.

#[global] Instance heap_closed_dec h : Decision (heap_closed h).
Proof. unfold heap_closed. apply _. Defined.

(** ** What the rewriter promises *)

(** [y] stands in the output list for the element [x]: a [RichText] at an
    address outside [D] holding the translation of [x] when [x] is a
    string, [x] itself otherwise. *)
Definition item_rewritten (D : gset loc) (h' : heap) (x y : pyval) : Prop :=
  match as_str x with
  | Some s =>
      exists l, y = PRef l /\ (l ∉ D)
        /\ h' !! l = Some (ORichText (attempt_to_parse_markdown s))
  | None => y = x
  end.

(** [v'] stands in the output for the value [v] of the field [key]; [h] is
    the store before the call, [h'] the store after it, and the objects
    made for this field have their addresses outside [D]. *)
Inductive entry_rewritten (D : gset loc) (h h' : heap) (key : string)
    (v : pyval) : pyval -> Prop :=
  | rewritten_list xs l ys :
      key ∈ list_fields -> list_at h v = Some xs ->
      l ∉ D -> h' !! l = Some (OList ys) ->
      Forall2 (item_rewritten D h') xs ys ->
      entry_rewritten D h h' key v (PRef l)
  | rewritten_scalar s l :
      key ∈ scalar_fields -> as_str v = Some s ->
      l ∉ D -> h' !! l = Some (ORichText (attempt_to_parse_markdown s)) ->
      entry_rewritten D h h' key v (PRef l)
  | rewritten_same :
      key ∉ list_fields \/ list_at h v = None ->
      key ∉ scalar_fields \/ as_str v = None ->
      entry_rewritten D h h' key v v.

(** ** A context of the specification's scenarios *)

Definition example_context : gmap string pyval :=
  <["SUMMARY" := PRef 2%positive]>
    (<["OTHER_FIELD" := PStr "**bold**"]>
       (<["ENGAGEMENT_SUMMARY_SS" := PNone]>
          (<["ENGAGEMENT_SUMMARY_CH" := PStr "Led **two** teams"]>
             (<["RESPONSIBILITIES_SS" := PStr "not a list"]> ∅)))).

Definition example_summary : list pyval :=
  [PStr "Built **scalable** systems"; PNone; PStr "Led team"].

(** The context at address 1, its list at address 2. *)
Definition example_heap : heap :=
  <[1%positive := ODict example_context]>
    (<[2%positive := OList example_summary]> ∅).

(** ** Reading a RichText *)

(** The texts of the bold runs, in order. *)
Definition bold_texts (rt : list Run) : list string :=
  run_text <$> filter (fun r => run_bold r = true) rt.

(** The non-empty groups of a list of matches, in order. *)
Definition nonempty_groups (ms : list re_match) : list string :=
  filter (fun t => PyStr.truthy t = true) (m_group1 <$> ms).


(** [m] is an occurrence of the pattern in [text]: it lies within the
    text, begins and ends with the delimiter, and its group is what stands
    between the two, without line feed. *)
Definition match_in (text : string) (m : re_match) : Prop :=
  m_start m + 4 <= m_end m /\ m_end m <= PyStr.len text
  /\ PyStr.slice (m_start m) (m_start m + 2) text = "**"
  /\ PyStr.slice (m_end m - 2) (m_end m) text = "**"
  /\ m_group1 m = PyStr.slice (m_start m + 2) (m_end m - 2) text
  /\ PyStr.mem line_feed (m_group1 m) = false.

(** The matches follow one another from [pos] on, none beginning before
    the one before it has ended. *)
Fixpoint in_order (pos : nat) (ms : list re_match) : Prop :=
  match ms with
  | [] => True
  | m :: ms' => pos <= m_start m /\ in_order (m_end m) ms'
  end.

(** ** generate_docx: the file of the template *)

(** [c.isspace()] for a character below 256: the tab to the carriage
    return, the four separators and the space, the next-line control and
    the no-break space. *)
Definition py_isspace (c : ascii) : bool :=
  let n := nat_of_ascii c in
  ((9 <=? n) && (n <=? 13)) || ((28 <=? n) && (n <=? 32))
  || (n =? 133) || (n =? 160).

(** [s.lstrip()] *)
Fixpoint py_lstrip (s : string) : string :=
  match s with
  | EmptyString => EmptyString
  | String c s' => if py_isspace c then py_lstrip s' else s
  end.

(** [s.rstrip()] *)
Fixpoint py_rstrip (s : string) : string :=
  match s with
  | EmptyString => EmptyString
  | String c s' =>
      match py_rstrip s' with
      | EmptyString => if py_isspace c then EmptyString else String c EmptyString
      | String _ _ as r => String c r
      end
  end.

(** [s.strip()] *)
Definition py_strip (s : string) : string := py_rstrip (py_lstrip s).

(** All the characters of [s] are white space. *)
Fixpoint all_space (s : string) : bool :=
  match s with
  | EmptyString => true
  | String c s' => py_isspace c && all_space s'
  end.

(** The last character of [s] is white space. *)
Fixpoint ends_with_space (s : string) : bool :=
  match s with
  | EmptyString => false
  | String c EmptyString => py_isspace c
  | String _ s' => ends_with_space s'
  end.

(** The first statement of [generate_docx]:
    [template_path = f"./{template_path}".strip() + ".docx"] *)
Definition template_file (template_path : string) : string :=
  py_strip ("./" +:+ template_path) +:+ ".docx".

(** * Properties *)

(** ** Strings *)

#[local] Arguments String.append !_ _ / : simpl nomatch.

Section string_facts.
Implicit Types (s t u : string) (n m : nat) (c : ascii).

Lemma str_app_nil_r s : s +:+ "" = s.
Proof. induction s; simpl; congruence. Qed.

Lemma str_app_assoc s t u : (s +:+ t) +:+ u = s +:+ t +:+ u.
Proof. induction s; simpl; congruence. Qed.

Lemma str_app_snoc s c t : (s +:+ String c "") +:+ t = s +:+ String c t.
Proof. by rewrite str_app_assoc. Qed.

Lemma len_app s t : PyStr.len (s +:+ t) = PyStr.len s + PyStr.len t.
Proof. induction s; simpl; lia. Qed.

Lemma drop_0 s : PyStr.drop 0 s = s.
Proof. by destruct s. Qed.

Lemma take_0 s : PyStr.take 0 s = "".
Proof. by destruct s. Qed.

Lemma len_drop n s : PyStr.len (PyStr.drop n s) = PyStr.len s - n.
Proof. revert s; induction n; intros [|c s]; simpl; auto. Qed.

Lemma drop_drop n m s : PyStr.drop n (PyStr.drop m s) = PyStr.drop (m + n) s.
Proof.
  revert s; induction m; intros s; simpl; [done|].
  destruct s; [by destruct n|]. apply IHm.
Qed.

Lemma take_all n s : PyStr.len s <= n -> PyStr.take n s = s.
Proof.
  revert s; induction n; intros [|c s]; simpl; intros; try done; [lia|].
  f_equal. apply IHn. lia.
Qed.

Lemma take_empty_inv n s : PyStr.take n s = "" -> n = 0 \/ s = "".
Proof. destruct n, s; simpl; auto; discriminate. Qed.

Lemma drop_app_len s t : PyStr.drop (PyStr.len s) (s +:+ t) = t.
Proof. induction s; simpl; [by destruct t|done]. Qed.

Lemma take_app_len s t : PyStr.take (PyStr.len s) (s +:+ t) = s.
Proof. induction s; simpl; [by destruct t|congruence]. Qed.

(** A slice grows by the character at its right end. *)
Lemma take_snoc n s c s' :
  PyStr.drop n s = String c s' ->
  PyStr.take (S n) s = PyStr.take n s +:+ String c "".
Proof.
  revert s; induction n; intros [|a s]; simpl; try discriminate.
  - by intros [= -> ->].
  - intros H. f_equal. by apply IHn.
Qed.

Lemma slice_snoc a b s c s' :
  a <= b -> PyStr.drop b s = String c s' ->
  PyStr.slice a (b + 1) s = PyStr.slice a b s +:+ String c "".
Proof.
  intros Hab Hd. unfold PyStr.slice.
  replace (b + 1 - a) with (S (b - a)) by lia.
  apply take_snoc with s'. rewrite drop_drop.
  by replace (a + (b - a)) with b by lia.
Qed.

Lemma slice_empty a s : PyStr.slice a a s = "".
Proof. unfold PyStr.slice. rewrite Nat.sub_diag. apply take_0. Qed.

Lemma slice_to_end a s : PyStr.slice a (PyStr.len s) s = PyStr.drop a s.
Proof. unfold PyStr.slice. apply take_all. rewrite len_drop. lia. Qed.

Lemma truthy_slice a b s :
  b <= PyStr.len s -> PyStr.truthy (PyStr.slice a b s) = (a <? b).
Proof.
  intros Hb. unfold PyStr.slice.
  destruct (Nat.ltb_spec a b) as [Hlt|Hge].
  - destruct (PyStr.take (b - a) (PyStr.drop a s)) eqn:E; [|done].
    apply take_empty_inv in E as [E|E]; [lia|].
    apply (f_equal PyStr.len) in E. rewrite len_drop in E. simpl in E. lia.
  - replace (b - a) with 0 by lia. by rewrite take_0.
Qed.

End string_facts.

(** ** The regular expression *)

#[local] Arguments starts_with_stars : simpl never.
#[local] Arguments match_at : simpl never.

Section regex_facts.
Implicit Types (s t a b c : string) (k n fuel pos : nat).

Lemma is_star_eq x : is_star x = true -> x = star.
Proof. apply Ascii.eqb_eq. Qed.

Lemma starts_with_stars_inv s :
  starts_with_stars s = true -> s = "**" +:+ PyStr.drop 2 s.
Proof.
  destruct s as [|x [|y s]]; unfold starts_with_stars; simpl; try discriminate.
  intros [Hx Hy]%andb_prop.
  by rewrite (is_star_eq _ Hx), (is_star_eq _ Hy).
Qed.

(** What a successful [lazy_close] has found. *)
Lemma lazy_close_Some s k :
  lazy_close s = Some k ->
  s = PyStr.take k s +:+ "**" +:+ PyStr.drop (k + 2) s
  /\ PyStr.mem line_feed (PyStr.take k s) = false.
Proof.
  revert k; induction s as [|x s IH]; intros k; simpl; [discriminate|].
  destruct (starts_with_stars (String x s)) eqn:Hst.
  - intros [= <-]. split; [|done]. by apply starts_with_stars_inv in Hst.
  - destruct (Ascii.eqb x line_feed) eqn:Hx; [discriminate|].
    destruct (lazy_close s) as [k'|] eqn:Hk; [|discriminate].
    intros [= <-]. destruct (IH k' eq_refl) as [Hs Hm].
    simpl. rewrite Hx, Hm. split; [|done]. f_equal. exact Hs.
Qed.

Lemma match_at_Some s k :
  match_at s = Some k ->
  s = "**" +:+ PyStr.take k (PyStr.drop 2 s) +:+ "**" +:+ PyStr.drop (k + 4) s
  /\ PyStr.mem line_feed (PyStr.take k (PyStr.drop 2 s)) = false.
Proof.
  unfold match_at. destruct (starts_with_stars s) eqn:Hst; [|discriminate].
  intros [Hs Hm]%lazy_close_Some. split; [|done].
  rewrite drop_drop in Hs. replace (2 + (k + 2)) with (k + 4) in Hs by lia.
  rewrite <-Hs. by apply starts_with_stars_inv.
Qed.

Lemma lazy_close_len s k : lazy_close s = Some k -> k + 2 <= PyStr.len s.
Proof.
  revert k; induction s as [|x s IH]; intros k; simpl; [discriminate|].
  destruct (starts_with_stars (String x s)) eqn:Hst.
  - intros [= <-]. apply starts_with_stars_inv in Hst.
    apply (f_equal PyStr.len) in Hst. rewrite len_app in Hst. simpl in *. lia.
  - destruct (Ascii.eqb x line_feed); [discriminate|].
    destruct (lazy_close s) as [k'|]; [|discriminate].
    intros [= <-]. specialize (IH k' eq_refl). lia.
Qed.

Lemma match_at_len s k : match_at s = Some k -> k + 4 <= PyStr.len s.
Proof.
  unfold match_at. destruct (starts_with_stars s); [|discriminate].
  intros Hk%lazy_close_len. rewrite len_drop in Hk. lia.
Qed.

(** A closing delimiter is found whenever one follows a text without line
    feed. *)
Lemma lazy_close_is_Some b t :
  PyStr.mem line_feed b = false -> starts_with_stars t = true ->
  is_Some (lazy_close (b +:+ t)).
Proof.
  intros Hb Ht. induction b as [|x b IH]; simpl.
  - destruct t; [done|]. simpl. rewrite Ht. eauto.
  - simpl in Hb. apply orb_false_elim in Hb as [Hx Hb].
    destruct (starts_with_stars (String x (b +:+ t))); [eauto|].
    rewrite Hx. destruct (IH Hb) as [k ->]. simpl. eauto.
Qed.

Lemma starts_with_stars_no_pair x b t :
  contains_stars (String x b) = false ->
  ends_with_star (String x b) = false ->
  starts_with_stars (String x (b +:+ t)) = false.
Proof.
  simpl. intros [Hst _]%orb_false_elim He. destruct b as [|y b]; [|done].
  unfold starts_with_stars. simpl. rewrite He. by destruct t.
Qed.

(** The lazy group takes exactly [b] when no delimiter begins inside [b]
    or at its last character. *)
Lemma lazy_close_exact b t :
  contains_stars b = false -> ends_with_star b = false ->
  PyStr.mem line_feed b = false -> starts_with_stars t = true ->
  lazy_close (b +:+ t) = Some (PyStr.len b).
Proof.
  intros Hc He Hm Ht. induction b as [|x b IH]; simpl.
  - destruct t; [done|]. simpl. by rewrite Ht.
  - rewrite (starts_with_stars_no_pair x b t Hc He).
    simpl in Hm. apply orb_false_elim in Hm as [-> Hm].
    rewrite IH; [done| |by destruct b|done].
    simpl in Hc. by apply orb_false_elim in Hc as [_ ?].
Qed.

Lemma match_at_exact b c :
  contains_stars b = false -> ends_with_star b = false ->
  PyStr.mem line_feed b = false ->
  match_at ("**" +:+ b +:+ "**" +:+ c) = Some (PyStr.len b).
Proof. intros. unfold match_at. simpl. by apply lazy_close_exact. Qed.

(** No match begins inside [a] when no delimiter begins inside [a] or at
    its last character. *)
Lemma match_at_none x a t :
  contains_stars (String x a) = false ->
  ends_with_star (String x a) = false ->
  match_at (String x (a +:+ t)) = None.
Proof.
  intros Hc He. unfold match_at.
  by rewrite (starts_with_stars_no_pair x a t Hc He).
Qed.

End regex_facts.

(** ** Enough fuel *)

Section fuel_facts.
Implicit Types (s p : string) (k fuel pos : nat).

Lemma finditer_from_fuel fuel fuel' pos s :
  PyStr.len s < fuel -> PyStr.len s < fuel' ->
  finditer_from fuel pos s = finditer_from fuel' pos s.
Proof.
  revert fuel' pos s; induction fuel as [|fuel IH];
    intros [|fuel'] pos s Hf Hf'; try lia.
  simpl. destruct s as [|x s]; [done|].
  destruct (match_at (String x s)) as [k|].
  - f_equal. apply IH; rewrite len_drop; simpl in *; lia.
  - apply IH; simpl in *; lia.
Qed.

Lemma runs_from_fuel fuel fuel' p s :
  PyStr.len s < fuel -> PyStr.len s < fuel' ->
  runs_from fuel p s = runs_from fuel' p s.
Proof.
  revert fuel' p s; induction fuel as [|fuel IH];
    intros [|fuel'] p s Hf Hf'; try lia.
  simpl. destruct s as [|x s]; [done|].
  destruct (match_at (String x s)) as [k|].
  - do 2 f_equal. apply IH; rewrite len_drop; simpl in *; lia.
  - apply IH; simpl in *; lia.
Qed.

Lemma strip_with_fuel close fuel fuel' s :
  PyStr.len s < fuel -> PyStr.len s < fuel' ->
  strip_with close fuel s = strip_with close fuel' s.
Proof.
  revert fuel' s; induction fuel as [|fuel IH];
    intros [|fuel'] s Hf Hf'; try lia.
  simpl. destruct s as [|x s]; [done|].
  destruct (if starts_with_stars (String x s) then _ else _) as [k|].
  - f_equal. apply IH; rewrite len_drop; simpl in *; lia.
  - f_equal. apply IH; simpl in *; lia.
Qed.

Lemma runs_from_S fuel p x s :
  runs_from (S fuel) p (String x s) =
    match match_at (String x s) with
    | Some k =>
        plain_unless_empty p
          ++ (if PyStr.truthy (PyStr.take k (PyStr.drop 2 (String x s)))
              then [bolded (PyStr.take k (PyStr.drop 2 (String x s)))] else [])
          ++ runs_from fuel "" (PyStr.drop (k + 4) (String x s))
    | None => runs_from fuel (p +:+ String x "") s
    end.
Proof. reflexivity. Qed.

Lemma runs_match p s k :
  match_at s = Some k ->
  runs p s =
    plain_unless_empty p
      ++ (if PyStr.truthy (PyStr.take k (PyStr.drop 2 s))
          then [bolded (PyStr.take k (PyStr.drop 2 s))] else [])
      ++ runs "" (PyStr.drop (k + 4) s).
Proof.
  intros Hk. destruct s as [|x s]; [done|]. unfold runs.
  cbn [PyStr.len]. rewrite runs_from_S, Hk. do 2 f_equal.
  apply runs_from_fuel; rewrite len_drop; simpl; lia.
Qed.

Lemma runs_skip p x s :
  match_at (String x s) = None ->
  runs p (String x s) = runs (p +:+ String x "") s.
Proof.
  intros Hk. unfold runs. cbn [PyStr.len]. rewrite runs_from_S, Hk.
  apply runs_from_fuel; simpl; lia.
Qed.
End fuel_facts.

(** ** The loop of the translator *)

Section loop_facts.
Implicit Types (s p text : string) (k fuel pos last : nat) (rt : RichText).

Lemma plain_unless_empty_slice last pos text :
  pos <= PyStr.len text ->
  plain_unless_empty (PyStr.slice last pos text) =
    if last <? pos then [plain (PyStr.slice last pos text)] else [].
Proof. intros. unfold plain_unless_empty. by rewrite truthy_slice. Qed.

(** The loop over the matches and the final test, by indices into
    [text], yield the runs read off the text. *)
Lemma parse_loop_runs text fuel pos last rt :
  last <= pos -> pos <= PyStr.len text -> PyStr.len text - pos < fuel ->
  parse_finish text
    (foldl (parse_step text) (rt, last)
       (finditer_from fuel pos (PyStr.drop pos text)))
  = rt ++ runs_from fuel (PyStr.slice last pos text) (PyStr.drop pos text).
Proof.
  revert pos last rt; induction fuel as [|fuel IH];
    intros pos last rt Hlast Hpos Hfuel; [lia|].
  cbn [finditer_from runs_from].
  destruct (PyStr.drop pos text) as [|x s] eqn:Hd.
  - assert (pos = PyStr.len text) as ->.
    { apply (f_equal PyStr.len) in Hd. rewrite len_drop in Hd.
      simpl in Hd. lia. }
    simpl. rewrite plain_unless_empty_slice by done.
    rewrite slice_to_end. unfold RichText_add.
    destruct (last <? PyStr.len text); [done|by rewrite app_nil_r].
  - assert (PyStr.len text - pos = S (PyStr.len s)) as Hlen.
    { apply (f_equal PyStr.len) in Hd. by rewrite len_drop in Hd. }
    destruct (match_at (String x s)) as [k|] eqn:Hk.
    + pose proof (match_at_len _ _ Hk) as Hk4. simpl in Hk4.
      assert (PyStr.drop (k + 4) (String x s)
              = PyStr.drop (pos + k + 4) text) as ->.
      { by rewrite <-Hd, drop_drop, Nat.add_assoc. }
      simpl foldl. rewrite IH by lia.
      rewrite slice_empty, plain_unless_empty_slice by done.
      unfold RichText_add. fold (plain (PyStr.slice last pos text)).
      fold (bolded (PyStr.take k (PyStr.drop 2 (String x s)))).
      destruct (last <? pos), (PyStr.truthy _); simpl;
        by rewrite <-?app_assoc.
    + assert (s = PyStr.drop (pos + 1) text) as Hs.
      { by rewrite <-drop_drop, Hd. }
      rewrite Hs at 1 2. rewrite IH by lia.
      by rewrite (slice_snoc last pos text x s), <-Hs.
Qed.

Lemma parse_loop_runs_0 text :
  parse_finish text (foldl (parse_step text) ([], 0) (finditer text))
  = runs "" text.
Proof.
  pose proof (parse_loop_runs text (S (PyStr.len text)) 0 0 []) as H.
  rewrite drop_0, slice_empty in H. apply H; lia.
Qed.

(** The translator in terms of the runs read off the text. *)
Lemma attempt_to_parse_markdown_runs text :
  attempt_to_parse_markdown text =
    match finditer text with
    | [] => [plain text]
    | _ :: _ => runs "" text
    end.
Proof.
  unfold attempt_to_parse_markdown.
  pose proof (parse_loop_runs_0 text) as H.
  destruct (finditer text) as [|m ms]; [done|].
  unfold parse_finish in H. by destruct (foldl _ _ _).
Qed.

Lemma runs_no_match text :
  finditer text = [] -> runs "" text = plain_unless_empty text.
Proof.
  intros H. rewrite <-parse_loop_runs_0, H. simpl. unfold plain_unless_empty.
  by destruct text.
Qed.
End loop_facts.

(** ** Bold-marker pairs *)

Section pair_facts.
Implicit Types (s p a b c t : string) (k fuel pos : nat).

Lemma has_bold_pair_cons x s : has_bold_pair s -> has_bold_pair (String x s).
Proof.
  intros (a & b & c & -> & Hb). by exists (String x a), b, c.
Qed.

Lemma match_at_has_bold_pair s k : match_at s = Some k -> has_bold_pair s.
Proof.
  intros [Hs Hm]%match_at_Some.
  by exists "", (PyStr.take k (PyStr.drop 2 s)), (PyStr.drop (k + 4) s).
Qed.

Lemma match_at_pair_head b c :
  PyStr.mem line_feed b = false ->
  is_Some (match_at ("**" +:+ b +:+ "**" +:+ c)).
Proof. intros Hb. unfold match_at. simpl. by apply lazy_close_is_Some. Qed.

(** The scan finds a match exactly when the text holds a pair. *)
Lemma finditer_from_nil fuel pos s :
  PyStr.len s < fuel ->
  finditer_from fuel pos s = [] <-> ~ has_bold_pair s.
Proof.
  intros Hfuel. split.
  - intros Hnil (a & b & c & -> & Hb). revert fuel pos Hfuel Hnil.
    induction a as [|x a IH]; intros [|fuel] pos Hfuel; try lia.
    + destruct (match_at_pair_head b c Hb) as [k Hk].
      simpl in Hk |- *. by rewrite Hk.
    + cbn [finditer_from String.append]. fold String.append.
      destruct (match_at _); [done|].
      apply IH. simpl in Hfuel |- *. lia.
  - revert pos s Hfuel; induction fuel as [|fuel IH]; intros pos s Hfuel Hno;
      [lia|].
    destruct s as [|x s]; [done|]. cbn [finditer_from].
    destruct (match_at (String x s)) as [k|] eqn:Hk.
    + destruct Hno. by apply match_at_has_bold_pair with k.
    + apply IH; [simpl in Hfuel; lia|].
      intros Hs. by apply Hno, has_bold_pair_cons.
Qed.

Lemma finditer_nil s : finditer s = [] <-> ~ has_bold_pair s.
Proof. apply finditer_from_nil. lia. Qed.

(** Literal text before the first delimiter joins the pending text. *)
Lemma runs_prefix p a t :
  contains_stars a = false -> ends_with_star a = false ->
  runs p (a +:+ t) = runs (p +:+ a) t.
Proof.
  revert p; induction a as [|x a IH]; intros p Hc He.
  - by rewrite str_app_nil_r.
  - cbn [String.append]. fold String.append.
    rewrite runs_skip by by apply match_at_none.
    rewrite IH, str_app_snoc; [done| |by destruct a].
    simpl in Hc. by apply orb_false_elim in Hc as [_ ?].
Qed.

Lemma runs_no_pair p s :
  ~ has_bold_pair s -> runs p s = plain_unless_empty (p +:+ s).
Proof.
  revert p; induction s as [|x s IH]; intros p Hno.
  - by rewrite str_app_nil_r.
  - destruct (match_at (String x s)) as [k|] eqn:Hk.
    + destruct Hno. by apply match_at_has_bold_pair with k.
    + rewrite runs_skip, IH, str_app_snoc; [done| |done].
      intros Hs. by apply Hno, has_bold_pair_cons.
Qed.

Lemma any_close_lazy_close s :
  PyStr.mem line_feed s = false -> any_close s = lazy_close s.
Proof.
  induction s as [|x s IH]; [done|]. simpl.
  intros [-> Hs]%orb_false_elim. by rewrite IH.
Qed.

Lemma mem_drop x n s :
  PyStr.mem x s = false -> PyStr.mem x (PyStr.drop n s) = false.
Proof.
  revert s; induction n as [|n IH]; intros [|y s]; simpl; try done.
  intros [_ Hs]%orb_false_elim. by apply IH.
Qed.

(** On a text without line feed the two readings of a pair agree. *)
Lemma strip_with_single_line fuel s :
  PyStr.mem line_feed s = false ->
  strip_with any_close fuel s = strip_with lazy_close fuel s.
Proof.
  revert s; induction fuel as [|fuel IH]; intros s Hs; [done|].
  destruct s as [|x s]; [done|]. cbn [strip_with].
  rewrite any_close_lazy_close by by apply mem_drop.
  destruct (if starts_with_stars (String x s) then _ else _) as [k|].
  - f_equal. apply IH. by apply mem_drop.
  - f_equal. apply IH. simpl in Hs. by apply orb_false_elim in Hs as [_ ?].
Qed.

Lemma visible_text_app (rt1 rt2 : RichText) :
  visible_text (rt1 ++ rt2) = visible_text rt1 +:+ visible_text rt2.
Proof.
  induction rt1 as [|r rt1 IH]; simpl; [done|].
  by rewrite IH, str_app_assoc.
Qed.

Lemma visible_text_plain_unless_empty p :
  visible_text (plain_unless_empty p) = p.
Proof. destruct p; simpl; [done|]. by rewrite str_app_nil_r. Qed.

Lemma visible_text_bold_unless_empty t :
  visible_text (if PyStr.truthy t then [bolded t] else []) = t.
Proof. destruct t; simpl; [done|]. by rewrite str_app_nil_r. Qed.

(** The visible text of the runs read off [s]: the pending text, then
    [s] without its pairs. *)
Lemma visible_text_runs_from fuel p s :
  PyStr.len s < fuel ->
  visible_text (runs_from fuel p s) = p +:+ strip_with lazy_close fuel s.
Proof.
  revert p s; induction fuel as [|fuel IH]; intros p s Hfuel; [lia|].
  destruct s as [|x s].
  - simpl. by rewrite visible_text_plain_unless_empty, str_app_nil_r.
  - rewrite runs_from_S. cbn [strip_with]. fold (match_at (String x s)).
    destruct (match_at (String x s)) as [k|].
    + rewrite !visible_text_app, visible_text_plain_unless_empty.
      rewrite visible_text_bold_unless_empty.
      by rewrite IH by (rewrite len_drop; simpl in *; lia).
    + rewrite IH by (simpl in *; lia). by rewrite str_app_snoc.
Qed.
(** Where the lazy group stops does not depend on what follows the
    delimiter it has found. *)
Lemma starts_with_stars_cut x a t :
  starts_with_stars (String x (a +:+ "**" +:+ t))
  = starts_with_stars (String x (a +:+ "**")).
Proof. by destruct a. Qed.

Lemma lazy_close_cons x s :
  lazy_close (String x s) =
    if starts_with_stars (String x s) then Some 0
    else if Ascii.eqb x line_feed then None else S <$> lazy_close s.
Proof. reflexivity. Qed.

Lemma lazy_close_cut a t k :
  lazy_close (a +:+ "**" +:+ t) = Some k -> lazy_close (a +:+ "**") = Some k.
Proof.
  revert k; induction a as [|x a IH]; intros k.
  - by intros [= <-].
  - change (String x a +:+ "**" +:+ t) with (String x (a +:+ "**" +:+ t)).
    change (String x a +:+ "**") with (String x (a +:+ "**")).
    rewrite !lazy_close_cons, starts_with_stars_cut.
    destruct (starts_with_stars (String x (a +:+ "**"))); [done|].
    destruct (Ascii.eqb x line_feed); [done|].
    destruct (lazy_close (a +:+ "**" +:+ t)) as [k'|]; [|done].
    intros [= <-]. by rewrite (IH k' eq_refl).
Qed.

Lemma match_at_cut x a t k :
  ends_with_star (String x a) = false ->
  match_at (String x (a +:+ "**" +:+ t)) = Some k ->
  match_at (String x (a +:+ "**")) = Some k.
Proof.
  intros He. unfold match_at. rewrite starts_with_stars_cut.
  destruct (starts_with_stars (String x (a +:+ "**"))) eqn:Hst; [|done].
  destruct a as [|y a].
  - unfold starts_with_stars in Hst. simpl in Hst, He.
    by rewrite He in Hst.
  - apply lazy_close_cut.
Qed.

(** No match begins inside [a] when [a] with the delimiter after it holds
    no pair and [a] does not end in an asterisk. *)
Lemma match_at_none_no_pair x a t :
  ~ has_bold_pair (String x a +:+ "**") ->
  ends_with_star (String x a) = false ->
  match_at (String x (a +:+ "**" +:+ t)) = None.
Proof.
  intros Hno He.
  destruct (match_at (String x (a +:+ "**" +:+ t))) as [k|] eqn:Hk; [|done].
  destruct Hno. apply match_at_has_bold_pair with k.
  by apply match_at_cut with t.
Qed.

Lemma runs_prefix_no_pair p a t :
  ~ has_bold_pair (a +:+ "**") -> ends_with_star a = false ->
  runs p (a +:+ "**" +:+ t) = runs (p +:+ a) ("**" +:+ t).
Proof.
  revert p; induction a as [|x a IH]; intros p Hno He.
  - by rewrite str_app_nil_r.
  - change (String x a +:+ "**" +:+ t) with (String x (a +:+ "**" +:+ t)).
    rewrite runs_skip by by apply match_at_none_no_pair.
    rewrite IH, str_app_snoc; [done| |by destruct a].
    intros Ha. by apply Hno, has_bold_pair_cons.
Qed.
End pair_facts.

(** ** The markup translator *)

Example parse_scalable :
  attempt_to_parse_markdown "Built **scalable** systems"
  = [plain "Built "; bolded "scalable"; plain " systems"].
Proof. reflexivity. Qed.

Example parse_led_team :
  attempt_to_parse_markdown "Led team" = [plain "Led team"].
Proof. reflexivity. Qed.

(** A pair whose inner text holds a line feed is no match: the text stays
    one plain run, asterisks included. *)
Example parse_pair_across_lines :
  attempt_to_parse_markdown ("**a" +:+ String line_feed "b**")
  = [plain ("**a" +:+ String line_feed "b**")].
Proof. reflexivity. Qed.

(** An asterisk before the opening delimiter joins the bold text, one
    after the closing delimiter stays outside, and a pair in the trailing
    text is translated too. *)
Example parse_three_stars_before :
  attempt_to_parse_markdown "***b**" = [bolded "*b"].
Proof. reflexivity. Qed.

Example parse_three_stars_after :
  attempt_to_parse_markdown "**b***" = [bolded "b"; plain "*"].
Proof. reflexivity. Qed.

Example parse_two_pairs :
  attempt_to_parse_markdown "**b****x**" = [bolded "b"; bolded "x"].
Proof. reflexivity. Qed.

(** A delimiter in the leading text opens the first pair. *)
Example parse_delimiter_in_prefix :
  attempt_to_parse_markdown "**x**b**" = [bolded "x"; plain "b**"].
Proof. reflexivity. Qed.

(** A delimiter in the leading text that a line feed keeps from closing
    opens nothing. *)
Example parse_unclosed_delimiter_in_prefix :
  attempt_to_parse_markdown
    (("Uses **bold" +:+ String line_feed "and ") +:+ "**this** works")
  = [plain ("Uses **bold" +:+ String line_feed "and "); bolded "this";
     plain " works"].
Proof. reflexivity. Qed.

(** The closing delimiter of a pair that a line feed breaks opens the
    next match. *)
Example parse_broken_pair_reopens :
  attempt_to_parse_markdown ("**a" +:+ String line_feed "**b**")
  = [plain ("**a" +:+ String line_feed ""); bolded "b"].
Proof. reflexivity. Qed.

(** C1, as the specification states it: the texts of the runs, put
    together, are the input with every pair "two asterisks, any
    characters, two asterisks" stripped. It fails on a pair that spans a
    line feed, which the translator leaves as it is. *)
Lemma concatenation_any_characters_fails :
  visible_text (attempt_to_parse_markdown ("**a" +:+ String line_feed "b**"))
  <> strip_pairs_spec ("**a" +:+ String line_feed "b**").
Proof. vm_compute. discriminate. Qed.

(** C1, amended: for every input string, the texts of the runs, put
    together in order, are the input with the delimiters of every match
    removed and its inner text kept, the matches being the occurrences,
    left to right and without overlap, of two asterisks, the shortest
    possible run of characters other than the line feed, two asterisks. *)
Theorem concatenation_invariant (s : string) :
  visible_text (attempt_to_parse_markdown s) = strip_pairs s.
Proof.
  pose proof (visible_text_runs_from (S (PyStr.len s)) "" s) as Hruns.
  fold (runs "" s) in Hruns. fold (strip_pairs s) in Hruns.
  rewrite attempt_to_parse_markdown_runs.
  destruct (finditer s) as [|m ms] eqn:Hm.
  - rewrite (runs_no_match s Hm), visible_text_plain_unless_empty in Hruns.
    simpl. rewrite str_app_nil_r. apply Hruns. lia.
  - apply Hruns. lia.
Qed.

(** On a text without line feed the invariant holds as the specification
    states it. *)
Lemma concatenation_single_line (s : string) :
  PyStr.mem line_feed s = false ->
  visible_text (attempt_to_parse_markdown s) = strip_pairs_spec s.
Proof.
  intros Hs. unfold strip_pairs_spec. rewrite strip_with_single_line by done.
  pose proof (visible_text_runs_from (S (PyStr.len s)) "" s) as Hruns.
  fold (runs "" s) in Hruns. rewrite attempt_to_parse_markdown_runs.
  destruct (finditer s) as [|m ms] eqn:Hm.
  - rewrite (runs_no_match s Hm), visible_text_plain_unless_empty in Hruns.
    simpl. rewrite str_app_nil_r. apply Hruns. lia.
  - apply Hruns. lia.
Qed.

(** C2, as the specification states it, fails when an asterisk stands just
    before the opening delimiter: it becomes part of the bold text. *)
Lemma bold_pair_any_context_fails :
  PyStr.truthy "b" = true /\ contains_stars "b" = false /\
  attempt_to_parse_markdown ("*" +:+ "**" +:+ "b" +:+ "**" +:+ "")
  <> plain_unless_empty "*" ++ [bolded "b"] ++ plain_unless_empty "".
Proof. repeat split; [vm_compute; discriminate]. Qed.

(** C2, amended: for a string [a**b**c] where [a] with the delimiter
    after it holds no bold-marker pair and [a] does not end in an
    asterisk, [b] is non-empty, holds no delimiter and no line feed and
    does not end in an asterisk, and [c] holds no bold-marker pair, the
    translator yields, in order, a plain run [a] (none when [a] is
    empty), a bold run [b] and a plain run [c] (none when [c] is
    empty). *)
Theorem bold_pair_runs (a b c : string) :
  ~ has_bold_pair (a +:+ "**") -> ends_with_star a = false ->
  PyStr.truthy b = true -> contains_stars b = false ->
  ends_with_star b = false -> PyStr.mem line_feed b = false ->
  ~ has_bold_pair c ->
  attempt_to_parse_markdown (a +:+ "**" +:+ b +:+ "**" +:+ c)
  = plain_unless_empty a ++ [bolded b] ++ plain_unless_empty c.
Proof.
  intros Ha Ha' Hb Hbs Hb' Hlf Hc.
  rewrite attempt_to_parse_markdown_runs.
  destruct (finditer _) as [|m ms] eqn:Hm.
  { apply finditer_nil in Hm. destruct Hm. by exists a, b, c. }
  rewrite runs_prefix_no_pair by done. simpl (_ +:+ a).
  rewrite (runs_match _ _ (PyStr.len b)) by by apply match_at_exact.
  replace (PyStr.drop 2 ("**" +:+ b +:+ "**" +:+ c)) with (b +:+ "**" +:+ c)
    by done.
  rewrite take_app_len, Hb.
  replace (PyStr.len b + 4) with (2 + (PyStr.len b + 2)) by lia.
  rewrite <-drop_drop.
  replace (PyStr.drop 2 ("**" +:+ b +:+ "**" +:+ c)) with (b +:+ "**" +:+ c)
    by done.
  rewrite <-drop_drop, drop_app_len.
  replace (PyStr.drop 2 ("**" +:+ c)) with c by done.
  by rewrite runs_no_pair by done.
Qed.

Lemma bold_pair_runs_witness :
  attempt_to_parse_markdown ("Built " +:+ "**" +:+ "scalable" +:+ "**" +:+ " systems")
  = plain_unless_empty "Built " ++ [bolded "scalable"]
      ++ plain_unless_empty " systems".
Proof.
  apply (bold_pair_runs "Built " "scalable" " systems"); try reflexivity.
  - apply finditer_nil. reflexivity.
  - apply finditer_nil. reflexivity.
Defined.

(** C4: a string without bold-marker pair yields exactly one run, not
    bold, whose text is the string itself. *)
Theorem no_pair_single_run (s : string) :
  ~ has_bold_pair s -> attempt_to_parse_markdown s = [plain s].
Proof.
  intros Hs. apply finditer_nil in Hs.
  by rewrite attempt_to_parse_markdown_runs, Hs.
Qed.

Lemma no_pair_single_run_witness :
  attempt_to_parse_markdown "Led team" = [plain "Led team"].
Proof.
  apply (no_pair_single_run "Led team"). apply finditer_nil. reflexivity.
Defined.

(** C5: on the four asterisks the one match, with its empty group, is
    consumed and no run is emitted. *)
Theorem four_stars_no_run :
  finditer "****" = [ReMatch 0 4 ""] /\ attempt_to_parse_markdown "****" = [].
Proof. split; reflexivity. Qed.

(** C8, as the specification states it: the empty string yields zero runs.
    The translator yields one. *)
Lemma empty_string_zero_runs_fails : attempt_to_parse_markdown "" <> [].
Proof. discriminate. Qed.

(** C8, amended: the empty string yields exactly one run, not bold, with
    empty text: no match is found and the whole input is added as it is. *)
Theorem empty_string_one_run :
  finditer "" = [] /\ attempt_to_parse_markdown "" = [plain ""].
Proof. split; reflexivity. Qed.

(** ** The store *)

Section store_facts.
Implicit Types (h g : heap) (l r pl : loc) (v x y : pyval) (D : gset loc).

Lemma bind_Some {A B : Type} (m : M A) (f : A -> M B) h a h1 :
  m h = Some (a, h1) -> (m ≫= f) h = f a h1.
Proof. intros Hm. unfold mbind, M_bind. by rewrite Hm. Qed.

Lemma alloc_fresh o h :
  alloc o h = Some (PRef (fresh (dom h)), <[fresh (dom h) := o]> h)
  /\ fresh (dom h) ∉ dom h.
Proof. split; [done|apply is_fresh]. Qed.

Lemma list_append_Some h l xs x :
  h !! l = Some (OList xs) ->
  list_append (PRef l) x h = Some (tt, <[l := OList (xs ++ [x])]> h).
Proof. intros Hl. unfold list_append. by rewrite Hl. Qed.

Lemma dict_setitem_Some h l d key x :
  h !! l = Some (ODict d) ->
  dict_setitem (PRef l) key x h = Some (tt, <[l := ODict (<[key := x]> d)]> h).
Proof. intros Hl. unfold dict_setitem. by rewrite Hl. Qed.

Lemma in_dom_Some h l o : h !! l = Some o -> l ∈ dom h.
Proof. intros Hl. apply elem_of_dom. eauto. Qed.

(** One element of the list: the output list grows by one element, and
    nothing else that was in the store changes. *)
Lemma process_item_spec pl x g ys0 :
  g !! pl = Some (OList ys0) ->
  exists g' y,
    process_item (PRef pl) x g = Some (tt, g')
    /\ g' !! pl = Some (OList (ys0 ++ [y]))
    /\ item_rewritten (dom g) g' x y
    /\ dom g ⊆ dom g'
    /\ forall l, l ∈ dom g -> l ≠ pl -> g' !! l = g !! l.
Proof.
  intros Hpl. pose proof (in_dom_Some _ _ _ Hpl) as Hdom.
  unfold process_item, item_rewritten. destruct (as_str x) as [s|].
  - destruct (alloc_fresh (ORichText (attempt_to_parse_markdown s)) g)
      as [Ha Hfresh].
    set (l := fresh (dom g)) in *.
    assert (l ≠ pl) as Hne by (by intros ->).
    eexists _, (PRef l). split.
    { rewrite (bind_Some _ _ _ _ _ Ha). apply list_append_Some.
      by rewrite lookup_insert_ne. }
    split; [by rewrite lookup_insert_eq|].
    split.
    { exists l. split; [done|]. split; [done|].
      rewrite lookup_insert_ne by done. by rewrite lookup_insert_eq. }
    split; [rewrite !dom_insert_L; set_solver|].
    intros l' Hl' Hl'pl. rewrite !lookup_insert_ne; [done|by intros ->|done].
  - eexists _, x. split; [by apply list_append_Some|].
    split; [by rewrite lookup_insert_eq|].
    split; [done|].
    split; [rewrite !dom_insert_L; set_solver|].
    intros l' Hl' Hl'pl. by rewrite lookup_insert_ne.
Qed.

Lemma item_rewritten_transport D D' g g' x y :
  D ⊆ D' ->
  (forall l, l ∉ D' -> is_Some (g !! l) -> g' !! l = g !! l) ->
  item_rewritten D' g x y -> item_rewritten D g' x y.
Proof.
  intros HD Hg. unfold item_rewritten. destruct (as_str x); [|done].
  intros (l & -> & Hl & Hrt). exists l. split; [done|]. split; [set_solver|].
  rewrite Hg; [done|done|eauto].
Qed.

(** The loop over the elements of the list. *)
Lemma process_items_spec pl xs g ys0 :
  g !! pl = Some (OList ys0) ->
  exists g' ys,
    for_each xs (process_item (PRef pl)) g = Some (tt, g')
    /\ g' !! pl = Some (OList (ys0 ++ ys))
    /\ Forall2 (item_rewritten (dom g) g') xs ys
    /\ dom g ⊆ dom g'
    /\ forall l, l ∈ dom g -> l ≠ pl -> g' !! l = g !! l.
Proof.
  revert g ys0; induction xs as [|x xs IH]; intros g ys0 Hpl.
  - exists g, []. rewrite app_nil_r. by repeat split.
  - pose proof (in_dom_Some _ _ _ Hpl) as Hdom.
    destruct (process_item_spec pl x g ys0 Hpl)
      as (g1 & y & Hrun1 & Hpl1 & Hy & Hsub1 & Hframe1).
    destruct (IH g1 (ys0 ++ [y]) Hpl1)
      as (g' & ys & Hrun & Hpl' & Hys & Hsub & Hframe).
    exists g', (y :: ys). split.
    { cbn [for_each]. by rewrite (bind_Some _ _ _ _ _ Hrun1). }
    split; [by rewrite Hpl', <-app_assoc|].
    split.
    { constructor.
      - apply (item_rewritten_transport _ (dom g) g1); [done| |done].
        intros l Hl Hsome. apply Hframe; [by apply elem_of_dom|].
        by intros ->.
      - eapply Forall2_impl; [exact Hys|]. intros x' y' Hxy.
        by apply (item_rewritten_transport _ (dom g1) g'). }
    split; [set_solver|].
    intros l Hl Hlpl. rewrite Hframe by set_solver. by apply Hframe1.
Qed.
End store_facts.

(** ** The context rewriter *)

Section rewriter_facts.
Implicit Types (h g : heap) (l r pl : loc) (v x y : pyval) (D : gset loc).
Implicit Types (d dr : gmap string pyval) (key : string).

Lemma fields_disjoint key : key ∈ list_fields -> key ∈ scalar_fields -> False.
Proof.
  assert (Forall (fun k => k ∉ scalar_fields) list_fields) as Hall.
  { apply (bool_decide_unpack _). by vm_compute. }
  rewrite Forall_forall in Hall. intros H1 H2. exact (Hall key H1 H2).
Qed.

Lemma isinstance_list_at v h :
  isinstance_list v h = Some (bool_decide (is_Some (list_at h v)), h).
Proof.
  unfold isinstance_list, list_at. do 2 f_equal.
  destruct v as [| | | | |l]; try by rewrite bool_decide_eq_false_2 by (by intros [? ?]).
  destruct (h !! l) as [[| |]|];
    try by rewrite bool_decide_eq_false_2 by (by intros [? ?]).
  by rewrite bool_decide_eq_true_2 by eauto.
Qed.

Lemma list_items_at v h xs :
  list_at h v = Some xs -> list_items v h = Some (xs, h).
Proof.
  unfold list_at, list_items. destruct v as [| | | | |l]; try done.
  destruct (h !! l) as [[| |]|]; try done. by intros [= ->].
Qed.

Lemma list_at_frame h g v :
  (forall l, v = PRef l -> g !! l = h !! l) -> list_at g v = list_at h v.
Proof.
  intros Hv. unfold list_at. destruct v as [| | | | |l]; try done.
  by rewrite Hv.
Qed.

Lemma entry_rewritten_transport D D' h h1 g g' key v v' :
  D ⊆ D' -> list_at h v = list_at h1 v ->
  (forall l, l ∉ D' -> is_Some (g !! l) -> g' !! l = g !! l) ->
  entry_rewritten D' h1 g key v v' -> entry_rewritten D h g' key v v'.
Proof.
  intros HD Hlist Hg [xs l ys Hkey Hxs Hl Hys Hitems|s l Hkey Hs Hl Hrt|Hl Hs].
  - apply rewritten_list with xs ys; [done|congruence|by intros ?%HD| |].
    + rewrite Hg; [done|done|eauto].
    + eapply Forall2_impl; [exact Hitems|]. intros x y Hxy.
      by apply (item_rewritten_transport _ D' g).
  - apply rewritten_scalar with s; [done|done|by intros ?%HD|].
    rewrite Hg; [done|done|eauto].
  - apply rewritten_same; [|done]. rewrite Hlist. exact Hl.
Qed.

(** One entry of the context: the output dict gets the key, and nothing
    else that was in the store changes. *)
Lemma process_entry_spec r key v g dr :
  g !! r = Some (ODict dr) ->
  exists g' v',
    process_entry (PRef r) (key, v) g = Some (tt, g')
    /\ g' !! r = Some (ODict (<[key := v']> dr))
    /\ entry_rewritten (dom g) g g' key v v'
    /\ dom g ⊆ dom g'
    /\ forall l, l ∈ dom g -> l ≠ r -> g' !! l = g !! l.
Proof.
  intros Hr. pose proof (in_dom_Some _ _ _ Hr) as Hdom.
  unfold process_entry.
  rewrite (bind_Some _ _ _ _ _ (isinstance_list_at v g)).
  destruct (bool_decide (key ∈ list_fields)) eqn:Hkey;
    [destruct (bool_decide (is_Some (list_at g v))) eqn:Hlist|]; simpl.
  - (* a list field holding a list *)
    apply bool_decide_eq_true in Hkey.
    apply bool_decide_eq_true in Hlist as [xs Hxs].
    destruct (alloc_fresh (OList []) g) as [Ha Hfresh].
    set (pl := fresh (dom g)) in *. set (g1 := <[pl := OList []]> g) in *.
    assert (pl ≠ r) as Hne by (by intros ->).
    assert (list_at g1 v = Some xs) as Hxs1.
    { rewrite <-Hxs. apply list_at_frame. intros l ->. unfold g1.
      apply lookup_insert_ne. intros <-. unfold list_at in Hxs.
      apply Hfresh. destruct (g !! pl) eqn:E; [|done].
      by apply in_dom_Some in E. }
    destruct (process_items_spec pl xs g1 [])
      as (g2 & ys & Hrun & Hpl2 & Hys & Hsub & Hframe);
      [by apply lookup_insert_eq|].
    assert (g2 !! r = Some (ODict dr)) as Hr2.
    { rewrite Hframe; [unfold g1; by rewrite lookup_insert_ne| |done].
      unfold g1. by apply dom_insert_subseteq. }
    assert (dom g ⊆ dom g1) as Hsub1.
    { unfold g1. apply dom_insert_subseteq. }
    eexists _, (PRef pl). split.
    { rewrite (bind_Some _ _ _ _ _ Ha).
      rewrite (bind_Some _ _ _ _ _ (list_items_at _ _ _ Hxs1)).
      rewrite (bind_Some _ _ _ _ _ Hrun).
      by apply dict_setitem_Some. }
    split; [by rewrite lookup_insert_eq|].
    split.
    { apply rewritten_list with xs ys; [done|done|done| |].
      - by rewrite lookup_insert_ne.
      - eapply Forall2_impl; [exact Hys|]. intros x y Hxy.
        apply (item_rewritten_transport _ (dom g1) g2); [done| |done].
        intros l Hl _. apply lookup_insert_ne. intros <-.
        by apply Hl, Hsub1. }
    split.
    { etrans; [exact Hsub1|]. etrans; [exact Hsub|].
      apply dom_insert_subseteq. }
    intros l Hl Hlr. rewrite lookup_insert_ne by done.
    rewrite Hframe; [|by apply Hsub1|by intros ->].
    unfold g1. apply lookup_insert_ne. by intros <-.
  - (* a list field holding something else *)
    apply bool_decide_eq_true in Hkey.
    apply bool_decide_eq_false in Hlist.
    assert (key ∉ scalar_fields) as Hsc
      by (intros ?; by apply (fields_disjoint key)).
    rewrite bool_decide_eq_false_2 by done.
    eexists _, v. split; [by apply dict_setitem_Some|].
    split; [by rewrite lookup_insert_eq|].
    split.
    { apply rewritten_same; [right|by left].
      destruct (list_at g v); [destruct Hlist; eauto|done]. }
    split; [apply dom_insert_subseteq|].
    intros l Hl Hlr. by rewrite lookup_insert_ne.
  - (* not a list field *)
    apply bool_decide_eq_false in Hkey.
    destruct (if bool_decide (key ∈ scalar_fields) then as_str v else None)
      as [s|] eqn:Hs.
    + destruct (bool_decide (key ∈ scalar_fields)) eqn:Hsc; [|done].
      apply bool_decide_eq_true in Hsc.
      destruct (alloc_fresh (ORichText (attempt_to_parse_markdown s)) g)
        as [Ha Hfresh].
      set (l := fresh (dom g)) in *.
      assert (l ≠ r) as Hne by (by intros ->).
      eexists _, (PRef l). split.
      { rewrite (bind_Some _ _ _ _ _ Ha). apply dict_setitem_Some.
        by rewrite lookup_insert_ne. }
      split; [by rewrite lookup_insert_eq|].
      split.
      { apply rewritten_scalar with s; [done|done|done|].
        rewrite lookup_insert_ne by done. by rewrite lookup_insert_eq. }
      split.
      { etrans; [|apply dom_insert_subseteq]. apply dom_insert_subseteq. }
      intros l' Hl' Hl'r.
      rewrite !lookup_insert_ne; [done|by intros ->|done].
    + eexists _, v. split; [by apply dict_setitem_Some|].
      split; [by rewrite lookup_insert_eq|].
      split.
      { apply rewritten_same; [by left|].
        destruct (bool_decide (key ∈ scalar_fields)) eqn:Hsc; [by right|].
        left. by apply bool_decide_eq_false in Hsc. }
      split; [apply dom_insert_subseteq|].
      intros l Hl Hlr. by rewrite lookup_insert_ne.
Qed.

(** The loop over the entries of the context. *)
Lemma process_entries_spec r (entries : list (string * pyval)) g dr :
  g !! r = Some (ODict dr) ->
  NoDup entries.*1 ->
  (forall key l, (key, PRef l) ∈ entries -> (l ∈ dom g) /\ l ≠ r) ->
  exists g' dr',
    for_each entries (process_entry (PRef r)) g = Some (tt, g')
    /\ g' !! r = Some (ODict dr')
    /\ dom g ⊆ dom g'
    /\ (forall l, l ∈ dom g -> l ≠ r -> g' !! l = g !! l)
    /\ (forall key, key ∉ entries.*1 -> dr' !! key = dr !! key)
    /\ (forall key v, (key, v) ∈ entries ->
          exists v', dr' !! key = Some v'
            /\ entry_rewritten (dom g) g g' key v v').
Proof.
  revert g dr; induction entries as [|[key v] entries IH];
    intros g dr Hr Hnodup Hclosed.
  - exists g, dr. repeat split; try done. intros key v Hin.
    by apply elem_of_nil in Hin.
  - pose proof (in_dom_Some _ _ _ Hr) as Hdom.
    apply NoDup_cons in Hnodup as [Hkey Hnodup].
    destruct (process_entry_spec r key v g dr Hr)
      as (g1 & v1 & Hrun1 & Hr1 & Hv1 & Hsub1 & Hframe1).
    destruct (IH g1 (<[key := v1]> dr) Hr1 Hnodup)
      as (g' & dr' & Hrun & Hr' & Hsub & Hframe & Hother & Hin).
    { intros key' l Hl.
      destruct (Hclosed key' l) as [? ?]; [by apply list_elem_of_further|].
      split; [by apply Hsub1|done]. }
    assert (forall l, l ∉ dom g -> is_Some (g1 !! l) -> g' !! l = g1 !! l)
      as Hkeep.
    { intros l Hl Hsome. apply Hframe; [by apply elem_of_dom|].
      by intros ->. }
    exists g', dr'. split.
    { cbn [for_each]. by rewrite (bind_Some _ _ _ _ _ Hrun1). }
    split; [done|]. split; [by etrans|]. split.
    { intros l Hl Hlr. rewrite Hframe; [by apply Hframe1|by apply Hsub1|done]. }
    split.
    { intros key' Hkey'. rewrite fmap_cons, not_elem_of_cons in Hkey'.
      destruct Hkey' as [Hne Hkey']. rewrite Hother by done.
      by apply lookup_insert_ne. }
    intros key' v' [[= -> ->]|Hin']%elem_of_cons.
    + exists v1. split; [by rewrite Hother, lookup_insert_eq|].
      by apply (entry_rewritten_transport _ (dom g) g g g1).
    + destruct (Hin key' v' Hin') as (v'' & Hv'' & Hrew).
      exists v''. split; [done|].
      apply (entry_rewritten_transport _ (dom g1) g g1 g'); [done| |done|done].
      symmetry. apply list_at_frame. intros l ->.
      destruct (Hclosed key' l) as [? ?]; [by apply list_elem_of_further|].
      by apply Hframe1.
Qed.

(** The whole call on a context [d] at address [c] of a store [h]
    without dangling references: it returns a new dict [d'] at a new
    address [r]; the store [h'] it leaves extends [h]; [d'] has the keys
    of [d], and each of its values stands for the value of [d] at the
    same key. *)
Lemma process_context_spec h c d :
  heap_closed h -> h !! c = Some (ODict d) ->
  exists r h' d',
    process_context_for_richtext (PRef c) h = Some (PRef r, h')
    /\ (r ∉ dom h)
    /\ h ⊆ h'
    /\ h' !! r = Some (ODict d')
    /\ dom d' = dom d
    /\ (forall key v, d !! key = Some v ->
          exists v', d' !! key = Some v'
            /\ entry_rewritten ({[r]} ∪ dom h) h h' key v v').
Proof.
  intros Hclosed Hc. pose proof (in_dom_Some _ _ _ Hc) as Hdom.
  destruct (alloc_fresh (ODict ∅) h) as [Ha Hfresh].
  set (r := fresh (dom h)) in *.
  assert (c ≠ r) as Hne by (by intros ->).
  assert (forall key l, d !! key = Some (PRef l) -> (l ∈ dom h) /\ l ≠ r)
    as Hvals.
  { intros key l Hl. pose proof (Hclosed c _ Hc key _ Hl) as Hin.
    split; [done|]. by intros ->. }
  assert (dom (<[r := ODict ∅]> h) = {[r]} ∪ dom h) as Hdom0
    by apply dom_insert_L.
  destruct (process_entries_spec r (map_to_list d) (<[r := ODict ∅]> h) ∅)
    as (h' & d' & Hrun & Hr' & Hsub & Hframe & Hother & Hin).
  { apply lookup_insert_eq. }
  { apply NoDup_fst_map_to_list. }
  { intros key l Hl%elem_of_map_to_list.
    destruct (Hvals key l Hl) as [? ?]. split; [|done].
    rewrite Hdom0. by apply elem_of_union_r. }
  assert (forall l, l ∈ dom h -> h' !! l = h !! l) as Hsame.
  { intros l Hl. assert (l ≠ r) by (by intros ->).
    rewrite Hframe; [by apply lookup_insert_ne| |done].
    rewrite Hdom0. by apply elem_of_union_r. }
  exists r, h', d'. split.
  { unfold process_context_for_richtext.
    rewrite (bind_Some _ _ _ _ _ Ha).
    assert (dict_items (PRef c) (<[r := ODict ∅]> h)
            = Some (map_to_list d, <[r := ODict ∅]> h)) as Hitems.
    { unfold dict_items. by rewrite lookup_insert_ne, Hc. }
    rewrite (bind_Some _ _ _ _ _ Hitems).
    by rewrite (bind_Some _ _ _ _ _ Hrun). }
  split; [done|]. split.
  { apply map_subseteq_spec. intros l o Hl.
    rewrite Hsame; [done|by apply in_dom_Some in Hl]. }
  split; [done|]. split.
  { apply set_eq. intros key. rewrite !elem_of_dom. split.
    - intros Hkey. destruct (d !! key) as [v|] eqn:Hv; [eauto|].
      rewrite Hother, lookup_empty in Hkey; [by destruct Hkey|].
      intros ((key' & v) & -> & Hkv%elem_of_map_to_list)%list_elem_of_fmap.
      simpl in Hv. congruence.
    - intros [v Hv]. apply elem_of_map_to_list in Hv.
      destruct (Hin key v Hv) as (v' & -> & _). eauto. }
  intros key v Hv. pose proof Hv as Hv0. apply elem_of_map_to_list in Hv.
  destruct (Hin key v Hv) as (v' & Hv' & Hrew).
  exists v'. split; [done|]. rewrite <-Hdom0.
  apply (entry_rewritten_transport _ (dom (<[r := ODict ∅]> h))
           h (<[r := ODict ∅]> h) h' h'); [done| |done|done].
  symmetry. apply list_at_frame. intros l ->.
  destruct (Hvals key l Hv0) as [? ?]. by apply lookup_insert_ne.
Qed.
End rewriter_facts.

Section rewriter_claims.
Implicit Types (h : heap) (c r l : loc) (v : pyval).
Implicit Types (d : gmap string pyval) (key : string).

Lemma dict_at_lookup h l d : h !! l = Some (ODict d) -> dict_at h (PRef l) = Some d.
Proof. intros Hl. unfold dict_at. by rewrite Hl. Qed.

Lemma list_at_weaken h h' v xs :
  h ⊆ h' -> list_at h v = Some xs -> list_at h' v = Some xs.
Proof.
  intros Hsub. unfold list_at. destruct v as [| | | | |l]; try done.
  destruct (h !! l) as [[ys| |]|] eqn:Hl; try done.
  intros [= ->]. by rewrite (lookup_weaken _ _ _ _ Hl Hsub).
Qed.

(** A value that the rewriter had no reason to translate is kept. *)
Lemma entry_rewritten_same D h h' key v v' :
  entry_rewritten D h h' key v v' ->
  key ∉ list_fields \/ list_at h v = None ->
  key ∉ scalar_fields \/ as_str v = None ->
  v' = v.
Proof.
  intros [xs l ys Hkey Hxs _ _ _|s l Hkey Hs _ _|_ _] Hl Hs'; [| |done].
  - destruct Hl; [done|congruence].
  - destruct Hs'; [done|congruence].
Qed.

(** A list field that holds a list gets a new list, element for
    element. *)
Lemma entry_rewritten_list D h h' key v v' xs :
  entry_rewritten D h h' key v v' ->
  key ∈ list_fields -> list_at h v = Some xs ->
  exists l ys, v' = PRef l /\ (l ∉ D) /\ h' !! l = Some (OList ys)
    /\ Forall2 (item_rewritten D h') xs ys.
Proof.
  intros [xs' l ys Hkey Hxs Hl Hys Hitems|s l Hkey Hs _ _|Hl _] Hkey' Hxs'.
  - exists l, ys. repeat split; try done. congruence.
  - destruct (fields_disjoint key Hkey' Hkey).
  - destruct Hl; [done|congruence].
Qed.
End rewriter_claims.

Example rewrite_example :
  exists h',
    process_context_for_richtext (PRef 1%positive) example_heap
      = Some (PRef 3%positive, h')
    /\ dict_at h' (PRef 3%positive)
       = Some (<["SUMMARY" := PRef 4%positive]>
                 (<["ENGAGEMENT_SUMMARY_CH" := PRef 7%positive]> example_context))
    /\ list_at h' (PRef 4%positive)
       = Some [PRef 5%positive; PNone; PRef 6%positive]
    /\ richtext_at h' (PRef 5%positive)
       = Some [plain "Built "; bolded "scalable"; plain " systems"]
    /\ richtext_at h' (PRef 6%positive) = Some [plain "Led team"]
    /\ richtext_at h' (PRef 7%positive)
       = Some [plain "Led "; bolded "two"; plain " teams"].
Proof. eexists. repeat split; vm_compute; reflexivity. Qed.

(** C3: on every context the rewriter returns a dict with exactly the
    keys of the input; for a list field that holds a list the output list
    has the same length, every element that is not a string is the same
    at the same position, and every string has given way to its
    translation. *)
Theorem rewriter_preserves_shape (h : heap) (c : loc) (d : gmap string pyval) :
  heap_closed h -> h !! c = Some (ODict d) ->
  exists r h' d',
    process_context_for_richtext (PRef c) h = Some (PRef r, h')
    /\ dict_at h' (PRef r) = Some d'
    /\ dom d' = dom d
    /\ forall key v xs,
         key ∈ list_fields -> d !! key = Some v -> list_at h v = Some xs ->
         exists v' ys,
           d' !! key = Some v' /\ list_at h' v' = Some ys
           /\ length ys = length xs
           /\ (forall i x, xs !! i = Some x -> as_str x = None -> ys !! i = Some x)
           /\ (forall i s, xs !! i = Some (PStr s) ->
                 exists y, ys !! i = Some y
                   /\ richtext_at h' y = Some (attempt_to_parse_markdown s)).
Proof.
  intros Hclosed Hc.
  destruct (process_context_spec h c d Hclosed Hc)
    as (r & h' & d' & Hrun & _ & _ & Hr & Hdom & Hentries).
  exists r, h', d'. split; [done|]. split; [by apply dict_at_lookup|].
  split; [done|]. intros key v xs Hkey Hv Hxs.
  destruct (Hentries key v Hv) as (v' & Hv' & Hrew).
  destruct (entry_rewritten_list _ _ _ _ _ _ xs Hrew Hkey Hxs)
    as (l & ys & -> & _ & Hl & Hitems).
  exists (PRef l), ys. split; [done|]. split; [by unfold list_at; rewrite Hl|].
  split; [symmetry; by eapply Forall2_length|]. split.
  - intros i x Hx Hnostr.
    destruct (Forall2_lookup_l _ _ _ _ _ Hitems Hx) as (y & Hy & Hxy).
    unfold item_rewritten in Hxy. rewrite Hnostr in Hxy. by subst y.
  - intros i s Hx.
    destruct (Forall2_lookup_l _ _ _ _ _ Hitems Hx) as (y & Hy & Hxy).
    destruct Hxy as (l' & -> & _ & Hl'). exists (PRef l'). split; [done|].
    unfold richtext_at. by rewrite Hl'.
Qed.

Lemma rewriter_preserves_shape_witness :
  exists r h' d',
    process_context_for_richtext (PRef 1%positive) example_heap = Some (PRef r, h')
    /\ dict_at h' (PRef r) = Some d'
    /\ dom d' = dom example_context
    /\ forall key v xs,
         key ∈ list_fields -> example_context !! key = Some v ->
         list_at example_heap v = Some xs ->
         exists v' ys,
           d' !! key = Some v' /\ list_at h' v' = Some ys
           /\ length ys = length xs
           /\ (forall i x, xs !! i = Some x -> as_str x = None -> ys !! i = Some x)
           /\ (forall i s, xs !! i = Some (PStr s) ->
                 exists y, ys !! i = Some y
                   /\ richtext_at h' y = Some (attempt_to_parse_markdown s)).
Proof.
  apply (rewriter_preserves_shape example_heap 1%positive example_context).
  - apply (bool_decide_unpack _). by vm_compute.
  - reflexivity.
Defined.

(** C6: a field classified for rich text whose value has not the shape
    of its class, a scalar field that holds no string or a list field that
    holds no list, keeps its value, the very same one, and the call does
    not raise. *)
Theorem mismatched_shape_passes_through (h : heap) (c : loc)
    (d : gmap string pyval) (key : string) (v : pyval) :
  heap_closed h -> h !! c = Some (ODict d) -> d !! key = Some v ->
  (key ∈ scalar_fields /\ as_str v = None)
  \/ (key ∈ list_fields /\ list_at h v = None) ->
  exists r h' d',
    process_context_for_richtext (PRef c) h = Some (PRef r, h')
    /\ dict_at h' (PRef r) = Some d'
    /\ d' !! key = Some v.
Proof.
  intros Hclosed Hc Hv Hshape.
  destruct (process_context_spec h c d Hclosed Hc)
    as (r & h' & d' & Hrun & _ & _ & Hr & _ & Hentries).
  exists r, h', d'. split; [done|]. split; [by apply dict_at_lookup|].
  destruct (Hentries key v Hv) as (v' & Hv' & Hrew).
  rewrite Hv'. f_equal. apply (entry_rewritten_same _ _ _ _ _ _ Hrew).
  - destruct Hshape as [[Hkey _]|[_ Hl]]; [left|by right].
    intros Hkey'. by apply (fields_disjoint key).
  - destruct Hshape as [[_ Hs]|[Hkey _]]; [by right|left].
    intros Hkey'. by apply (fields_disjoint key).
Qed.

Lemma mismatched_shape_passes_through_witness :
  exists r h' d',
    process_context_for_richtext (PRef 1%positive) example_heap = Some (PRef r, h')
    /\ dict_at h' (PRef r) = Some d'
    /\ d' !! "ENGAGEMENT_SUMMARY_SS" = Some PNone.
Proof.
  apply (mismatched_shape_passes_through example_heap 1%positive
           example_context "ENGAGEMENT_SUMMARY_SS" PNone).
  - apply (bool_decide_unpack _). by vm_compute.
  - reflexivity.
  - reflexivity.
  - left. split; [|reflexivity]. apply (bool_decide_unpack _). by vm_compute.
Defined.

(** A list field that holds a string keeps it as well. *)
Example list_field_with_string :
  exists r h' d',
    process_context_for_richtext (PRef 1%positive) example_heap = Some (PRef r, h')
    /\ dict_at h' (PRef r) = Some d'
    /\ d' !! "RESPONSIBILITIES_SS" = Some (PStr "not a list").
Proof. do 3 eexists. repeat split; vm_compute; reflexivity. Qed.

(** C7: a field whose name is in no rich-text class keeps its value, the
    very same one, be it a string with bold markers or anything else. *)
Theorem unclassified_field_unchanged (h : heap) (c : loc)
    (d : gmap string pyval) (key : string) (v : pyval) :
  heap_closed h -> h !! c = Some (ODict d) -> d !! key = Some v ->
  key ∉ list_fields -> key ∉ scalar_fields ->
  exists r h' d',
    process_context_for_richtext (PRef c) h = Some (PRef r, h')
    /\ dict_at h' (PRef r) = Some d'
    /\ d' !! key = Some v.
Proof.
  intros Hclosed Hc Hv Hl Hs.
  destruct (process_context_spec h c d Hclosed Hc)
    as (r & h' & d' & Hrun & _ & _ & Hr & _ & Hentries).
  exists r, h', d'. split; [done|]. split; [by apply dict_at_lookup|].
  destruct (Hentries key v Hv) as (v' & Hv' & Hrew).
  rewrite Hv'. f_equal. apply (entry_rewritten_same _ _ _ _ _ _ Hrew); by left.
Qed.

Lemma unclassified_field_unchanged_witness :
  exists r h' d',
    process_context_for_richtext (PRef 1%positive) example_heap = Some (PRef r, h')
    /\ dict_at h' (PRef r) = Some d'
    /\ d' !! "OTHER_FIELD" = Some (PStr "**bold**").
Proof.
  apply (unclassified_field_unchanged example_heap 1%positive
           example_context "OTHER_FIELD" (PStr "**bold**")).
  - apply (bool_decide_unpack _). by vm_compute.
  - reflexivity.
  - reflexivity.
  - apply (bool_decide_unpack _). by vm_compute.
  - apply (bool_decide_unpack _). by vm_compute.
Defined.

(** C9: neither operation raises. The scan of the translator is over
    within its bound, whatever the string, and where it finds no pair the
    result is the single plain run of the whole string; the rewriter
    returns on every context of a store without dangling references. *)
Theorem never_raises (s : string) (fuel : nat) (h : heap) (c : loc)
    (d : gmap string pyval) :
  PyStr.len s < fuel -> heap_closed h -> h !! c = Some (ODict d) ->
  finditer_from fuel 0 s = finditer s
  /\ (~ has_bold_pair s -> attempt_to_parse_markdown s = [plain s])
  /\ exists r h', process_context_for_richtext (PRef c) h = Some (PRef r, h').
Proof.
  intros Hfuel Hclosed Hc. split; [|split].
  - apply finditer_from_fuel; [done|lia].
  - intros Hs. apply finditer_nil in Hs.
    by rewrite attempt_to_parse_markdown_runs, Hs.
  - destruct (process_context_spec h c d Hclosed Hc)
      as (r & h' & d' & Hrun & _).
    by exists r, h'.
Qed.

Lemma never_raises_witness :
  finditer_from 100 0 "Built **scalable** systems"
    = finditer "Built **scalable** systems"
  /\ (~ has_bold_pair "Built **scalable** systems" ->
      attempt_to_parse_markdown "Built **scalable** systems"
        = [plain "Built **scalable** systems"])
  /\ exists r h',
       process_context_for_richtext (PRef 1%positive) example_heap
         = Some (PRef r, h').
Proof.
  apply (never_raises "Built **scalable** systems" 100 example_heap 1%positive
           example_context).
  - vm_compute. lia.
  - apply (bool_decide_unpack _). by vm_compute.
  - reflexivity.
Defined.

(** C10: the rewriter does not mutate its input. Every object of the
    store before the call is the same after it, the input dict and the
    lists it holds among them; the dict returned is at a new address, and
    so is the list made for a list field. *)
Theorem input_not_mutated (h : heap) (c : loc) (d : gmap string pyval) :
  heap_closed h -> h !! c = Some (ODict d) ->
  exists r h' d',
    process_context_for_richtext (PRef c) h = Some (PRef r, h')
    /\ h ⊆ h'
    /\ dict_at h' (PRef c) = Some d
    /\ (forall key v xs,
          d !! key = Some v -> list_at h v = Some xs -> list_at h' v = Some xs)
    /\ (r ∉ dom h) /\ dict_at h' (PRef r) = Some d'
    /\ forall key v xs,
         key ∈ list_fields -> d !! key = Some v -> list_at h v = Some xs ->
         exists l, d' !! key = Some (PRef l) /\ (l ∉ dom h) /\ l ≠ r
           /\ is_Some (list_at h' (PRef l)).
Proof.
  intros Hclosed Hc.
  destruct (process_context_spec h c d Hclosed Hc)
    as (r & h' & d' & Hrun & Hr & Hsub & Hr' & _ & Hentries).
  exists r, h', d'. split; [done|]. split; [done|].
  split; [apply dict_at_lookup; by apply (lookup_weaken h)|].
  split; [intros key v xs _; by apply list_at_weaken|].
  split; [done|]. split; [by apply dict_at_lookup|].
  intros key v xs Hkey Hv Hxs.
  destruct (Hentries key v Hv) as (v' & Hv' & Hrew).
  destruct (entry_rewritten_list _ _ _ _ _ _ xs Hrew Hkey Hxs)
    as (l & ys & -> & Hl & Hys & _).
  exists l. split; [done|].
  rewrite not_elem_of_union, not_elem_of_singleton in Hl.
  destruct Hl as [Hlr Hl]. split; [done|]. split; [done|].
  unfold list_at. rewrite Hys. eauto.
Qed.

Lemma input_not_mutated_witness :
  exists r h' d',
    process_context_for_richtext (PRef 1%positive) example_heap = Some (PRef r, h')
    /\ example_heap ⊆ h'
    /\ dict_at h' (PRef 1%positive) = Some example_context
    /\ (forall key v xs,
          example_context !! key = Some v -> list_at example_heap v = Some xs ->
          list_at h' v = Some xs)
    /\ (r ∉ dom example_heap) /\ dict_at h' (PRef r) = Some d'
    /\ forall key v xs,
         key ∈ list_fields -> example_context !! key = Some v ->
         list_at example_heap v = Some xs ->
         exists l, d' !! key = Some (PRef l) /\ (l ∉ dom example_heap) /\ l ≠ r
           /\ is_Some (list_at h' (PRef l)).
Proof.
  apply (input_not_mutated example_heap 1%positive example_context).
  - apply (bool_decide_unpack _). by vm_compute.
  - reflexivity.
Defined.

(** * Further properties *)

(** ** The runs of the translator *)

Section runs_facts.
Implicit Types (s p t : string) (k fuel pos : nat) (rt : RichText).

(** Induction along the scan of [runs]. *)
Lemma runs_ind (P : string -> string -> RichText -> Prop) :
  (forall p, P p "" (plain_unless_empty p)) ->
  (forall p s k rt,
     match_at s = Some k -> P "" (PyStr.drop (k + 4) s) rt ->
     P p s (plain_unless_empty p
              ++ (if PyStr.truthy (PyStr.take k (PyStr.drop 2 s))
                  then [bolded (PyStr.take k (PyStr.drop 2 s))] else [])
              ++ rt)) ->
  (forall p x s rt,
     match_at (String x s) = None -> P (p +:+ String x "") s rt ->
     P p (String x s) rt) ->
  forall p s, P p s (runs p s).
Proof.
  intros Hnil Hmatch Hskip p s.
  remember (PyStr.len s) as n eqn:Hn. revert p s Hn.
  induction n as [n IH] using lt_wf_ind. intros p s ->.
  destruct s as [|x s]; [apply Hnil|].
  destruct (match_at (String x s)) as [k|] eqn:Hk.
  - rewrite (runs_match _ _ _ Hk). apply Hmatch; [done|].
    apply (IH (PyStr.len (PyStr.drop (k + 4) (String x s)))); [|done].
    rewrite len_drop. simpl. lia.
  - rewrite (runs_skip _ _ _ Hk). apply Hskip; [done|].
    apply (IH (PyStr.len s)); [simpl; lia|done].
Qed.

Lemma len_take n s : PyStr.len (PyStr.take n s) = n `min` PyStr.len s.
Proof. revert s; induction n; intros [|c s]; simpl; auto. Qed.

(** The text taken by the lazy group holds no line feed and no delimiter
    and does not end in an asterisk. *)
Lemma lazy_close_group s k :
  lazy_close s = Some k ->
  PyStr.mem line_feed (PyStr.take k s) = false
  /\ contains_stars (PyStr.take k s) = false
  /\ ends_with_star (PyStr.take k s) = false.
Proof.
  revert k; induction s as [|x s IH]; intros k; simpl; [discriminate|].
  destruct (starts_with_stars (String x s)) eqn:Hst; [by intros [= <-]|].
  destruct (Ascii.eqb x line_feed) eqn:Hx; [discriminate|].
  destruct (lazy_close s) as [k'|] eqn:Hk; [|discriminate].
  intros [= <-]. destruct (IH k' eq_refl) as (Hm & Hc & He).
  cbn [PyStr.take PyStr.mem contains_stars ends_with_star].
  rewrite Hx, Hm, Hc, He. split; [done|].
  destruct s as [|y s]; [done|]. destruct k' as [|k'].
  - cbn [PyStr.take]. split; [done|].
    simpl in Hk. destruct (starts_with_stars (String y s)) eqn:Hys.
    + apply starts_with_stars_inv in Hys. simpl in Hys. injection Hys as -> _.
      unfold starts_with_stars in Hst. simpl in Hst.
      by rewrite andb_true_r in Hst.
    + destruct (Ascii.eqb y line_feed); [done|].
      by destruct (lazy_close s).
  - cbn [PyStr.take]. unfold starts_with_stars in Hst |- *. simpl in Hst |- *.
    by rewrite Hst.
Qed.

Lemma match_at_group s k :
  match_at s = Some k ->
  PyStr.mem line_feed (PyStr.take k (PyStr.drop 2 s)) = false
  /\ contains_stars (PyStr.take k (PyStr.drop 2 s)) = false
  /\ ends_with_star (PyStr.take k (PyStr.drop 2 s)) = false.
Proof.
  unfold match_at. destruct (starts_with_stars s); [|discriminate].
  apply lazy_close_group.
Qed.

Lemma Forall_plain_unless_empty (Q : Run -> Prop) p :
  (PyStr.truthy p = true -> Q (plain p)) -> Forall Q (plain_unless_empty p).
Proof.
  intros HQ. unfold plain_unless_empty.
  destruct (PyStr.truthy p); [|done]. apply Forall_singleton. by apply HQ.
Qed.

Lemma Forall_bold_unless_empty (Q : Run -> Prop) t :
  (PyStr.truthy t = true -> Q (bolded t)) ->
  Forall Q (if PyStr.truthy t then [bolded t] else []).
Proof.
  intros HQ. destruct (PyStr.truthy t); [|done].
  apply Forall_singleton. by apply HQ.
Qed.

(** Every run read off a text is in Calibri 22 and has a text. *)
Lemma runs_attributes p s :
  Forall (fun r => run_font r = "Calibri" /\ run_size r = 22
                   /\ PyStr.truthy (run_text r) = true) (runs p s).
Proof.
  apply runs_ind; clear p s.
  - intros p. by apply Forall_plain_unless_empty.
  - intros p s k rt Hk IH. repeat apply Forall_app_2; [| |done].
    + by apply Forall_plain_unless_empty.
    + by apply Forall_bold_unless_empty.
  - done.
Qed.

(** Every bold run read off a text is the group of a match. *)
Lemma runs_bold p s :
  Forall (fun r => run_bold r = true ->
            PyStr.mem line_feed (run_text r) = false
            /\ contains_stars (run_text r) = false
            /\ ends_with_star (run_text r) = false) (runs p s).
Proof.
  apply runs_ind; clear p s.
  - intros p. by apply Forall_plain_unless_empty.
  - intros p s k rt Hk IH. repeat apply Forall_app_2; [| |done].
    + by apply Forall_plain_unless_empty.
    + apply Forall_bold_unless_empty. intros _ _. by apply match_at_group.
  - done.
Qed.
End runs_facts.

(** ** What stays plain *)

Section plain_facts.
Implicit Types (s p t a : string) (k : nat) (rt : RichText).





End plain_facts.

(** ** The matches *)

Section match_facts.
Implicit Types (s p t text : string) (k fuel pos : nat) (ms : list re_match).

Lemma in_order_weaken pos pos' ms :
  pos <= pos' -> in_order pos' ms -> in_order pos ms.
Proof. destruct ms as [|m ms]; simpl; [done|]. intros ? [? ?]. split; [lia|done]. Qed.

(** The match found at the head of [s], piece by piece. *)
Lemma match_at_pieces s k :
  match_at s = Some k ->
  PyStr.take 2 s = "**"
  /\ PyStr.take 2 (PyStr.drop (k + 2) s) = "**"
  /\ PyStr.mem line_feed (PyStr.take k (PyStr.drop 2 s)) = false.
Proof.
  intros Hk. pose proof (match_at_len _ _ Hk) as Hlen.
  destruct (match_at_Some _ _ Hk) as [Hs Hm]. split; [|split; [|done]].
  - rewrite Hs. done.
  - replace (k + 2) with (2 + k) by lia. rewrite <-drop_drop.
    revert Hk. unfold match_at. destruct (starts_with_stars s); [|done].
    intros [Hs' _]%lazy_close_Some.
    assert (PyStr.len (PyStr.take k (PyStr.drop 2 s)) = k) as Hlk.
    { rewrite len_take, len_drop. lia. }
    rewrite Hs'. rewrite <-Hlk at 1. by rewrite drop_app_len.
Qed.

Lemma finditer_from_matches text fuel pos :
  pos <= PyStr.len text ->
  Forall (match_in text) (finditer_from fuel pos (PyStr.drop pos text))
  /\ in_order pos (finditer_from fuel pos (PyStr.drop pos text)).
Proof.
  revert pos; induction fuel as [|fuel IH]; intros pos Hpos; [done|].
  cbn [finditer_from]. destruct (PyStr.drop pos text) as [|x s] eqn:Hd; [done|].
  assert (PyStr.len text - pos = S (PyStr.len s)) as Hlen.
  { apply (f_equal PyStr.len) in Hd. by rewrite len_drop in Hd. }
  destruct (match_at (String x s)) as [k|] eqn:Hk.
  - pose proof (match_at_len _ _ Hk) as Hk4. simpl in Hk4.
    destruct (match_at_pieces _ _ Hk) as (Hopen & Hclose & Hlf).
    assert (PyStr.drop (k + 4) (String x s)
            = PyStr.drop (pos + k + 4) text) as ->.
    { by rewrite <-Hd, drop_drop, Nat.add_assoc. }
    destruct (IH (pos + k + 4)) as [Hall Hord]; [lia|].
    rewrite <-Hd in Hopen, Hclose, Hlf |- *. rewrite drop_drop in Hclose, Hlf |- *.
    split; [constructor; [|done]|done].
    unfold match_in, PyStr.slice. cbn [m_start m_end m_group1].
    replace (pos + 2 - pos) with 2 by lia.
    replace (pos + k + 4 - 2) with (pos + (k + 2)) by lia.
    replace (pos + k + 4 - (pos + (k + 2))) with 2 by lia.
    replace (pos + (k + 2) - (pos + 2)) with k by lia.
    repeat split; try done; lia.
  - assert (s = PyStr.drop (pos + 1) text) as Hs.
    { by rewrite <-drop_drop, Hd. }
    destruct (IH (pos + 1)) as [Hall Hord]; [lia|].
    rewrite <-Hs in Hall, Hord. split; [done|].
    apply in_order_weaken with (pos + 1); [lia|done].
Qed.

Lemma nonempty_groups_cons m ms :
  nonempty_groups (m :: ms) =
    (if PyStr.truthy (m_group1 m) then [m_group1 m] else [])
      ++ nonempty_groups ms.
Proof.
  unfold nonempty_groups. rewrite fmap_cons, filter_cons.
  destruct (PyStr.truthy (m_group1 m)); by case_decide.
Qed.

Lemma bold_texts_app (rt1 rt2 : list Run) :
  bold_texts (rt1 ++ rt2) = bold_texts rt1 ++ bold_texts rt2.
Proof. unfold bold_texts. by rewrite filter_app, fmap_app. Qed.

Lemma bold_texts_plain_unless_empty p : bold_texts (plain_unless_empty p) = [].
Proof. unfold plain_unless_empty. by destruct (PyStr.truthy p). Qed.

Lemma bold_texts_runs_from fuel pos p s :
  PyStr.len s < fuel ->
  bold_texts (runs_from fuel p s) = nonempty_groups (finditer_from fuel pos s).
Proof.
  revert pos p s; induction fuel as [|fuel IH]; intros pos p s Hfuel; [lia|].
  destruct s as [|x s]; [apply bold_texts_plain_unless_empty|].
  rewrite runs_from_S. cbn [finditer_from].
  destruct (match_at (String x s)) as [k|].
  - rewrite nonempty_groups_cons, !bold_texts_app, bold_texts_plain_unless_empty.
    cbn [m_group1]. rewrite <-(IH (pos + k + 4) "")
      by (rewrite len_drop; simpl in *; lia).
    by destruct (PyStr.truthy _).
  - apply IH. simpl in *. lia.
Qed.

Lemma strip_with_len fuel pos s :
  PyStr.len s < fuel ->
  PyStr.len (strip_with lazy_close fuel s)
    + 4 * length (finditer_from fuel pos s) = PyStr.len s.
Proof.
  revert pos s; induction fuel as [|fuel IH]; intros pos s Hfuel; [lia|].
  destruct s as [|x s]; [done|].
  cbn [strip_with finditer_from]. fold (match_at (String x s)).
  destruct (match_at (String x s)) as [k|] eqn:Hk.
  - pose proof (match_at_len _ _ Hk) as Hk4.
    specialize (IH (pos + k + 4) (PyStr.drop (k + 4) (String x s))).
    rewrite len_drop in IH. rewrite len_app, len_take, len_drop.
    cbn [length]. simpl in *. lia.
  - specialize (IH (pos + 1) s). simpl in *. lia.
Qed.
End match_facts.

(** ** More on the markup translator *)

(** X1: every run of the translator has the font Calibri and the size 22,
    and a run with an empty text is there only when the input itself is
    empty. *)
Theorem runs_have_font_and_text (s : string) :
  Forall (fun r => run_font r = "Calibri" /\ run_size r = 22
                   /\ (run_text r = "" -> s = ""))
    (attempt_to_parse_markdown s).
Proof.
  rewrite attempt_to_parse_markdown_runs. destruct (finditer s) as [|m ms].
  - by apply Forall_singleton.
  - eapply Forall_impl; [apply runs_attributes|].
    intros r (Hf & Hs & Ht). repeat split; try done.
    intros Hr. by rewrite Hr in Ht.
Qed.

(** X2: the text of a bold run is never empty, holds no line feed and no
    delimiter, and does not end in an asterisk. *)
Theorem bold_runs_are_groups (s : string) :
  Forall (fun r => run_bold r = true ->
            run_text r <> ""
            /\ PyStr.mem line_feed (run_text r) = false
            /\ contains_stars (run_text r) = false
            /\ ends_with_star (run_text r) = false)
    (attempt_to_parse_markdown s).
Proof.
  rewrite attempt_to_parse_markdown_runs. destruct (finditer s) as [|m ms].
  - by apply Forall_singleton.
  - pose proof (conj (runs_attributes "" s) (runs_bold "" s)) as H.
    rewrite <-Forall_and in H. eapply Forall_impl; [exact H|].
    intros r [(_ & _ & Ht) Hb] Hbold. split; [|by apply Hb].
    intros Hr. by rewrite Hr in Ht.
Qed.


(** X4: the matches of [finditer] lie within the text, begin and end with
    the delimiter, carry as group the text between the two, which holds no
    line feed, and follow one another without overlap. *)
Theorem matches_well_formed (s : string) :
  Forall (match_in s) (finditer s) /\ in_order 0 (finditer s).
Proof.
  pose proof (finditer_from_matches s (S (PyStr.len s)) 0) as H.
  rewrite drop_0 in H. apply H. lia.
Qed.

(** X5: each match costs the visible text four characters, the two
    delimiters, and nothing else is lost. *)
Theorem visible_text_length (s : string) :
  PyStr.len (visible_text (attempt_to_parse_markdown s))
    + 4 * length (finditer s) = PyStr.len s.
Proof.
  pose proof (strip_with_len (S (PyStr.len s)) 0 s) as Hlen.
  pose proof (visible_text_runs_from (S (PyStr.len s)) "" s) as Hruns.
  fold (runs "" s) in Hruns. fold (finditer s) in Hlen.
  rewrite attempt_to_parse_markdown_runs.
  destruct (finditer s) as [|m ms] eqn:Hm.
  - simpl. rewrite str_app_nil_r. lia.
  - rewrite Hruns by lia. simpl (_ +:+ _). apply Hlen. lia.
Qed.

(** X6: the texts of the bold runs are, in order, the groups of the
    matches that are not empty. *)
Theorem bold_texts_are_groups (s : string) :
  bold_texts (attempt_to_parse_markdown s) = nonempty_groups (finditer s).
Proof.
  pose proof (bold_texts_runs_from (S (PyStr.len s)) 0 "" s) as H.
  fold (runs "" s) in H. fold (finditer s) in H.
  rewrite attempt_to_parse_markdown_runs.
  destruct (finditer s) as [|m ms] eqn:Hm; [done|]. apply H. lia.
Qed.

(** X7: a pair with nothing inside is dropped, and the text around it
    comes out as two plain runs, not one: for [a****c] where [a] holds no
    delimiter and does not end in an asterisk and [c] holds no
    bold-marker pair, the runs are a plain [a] and a plain [c], each left
    out when empty. *)
Theorem empty_pair_splits (a c : string) :
  contains_stars a = false -> ends_with_star a = false ->
  ~ has_bold_pair c ->
  attempt_to_parse_markdown (a +:+ "****" +:+ c)
  = plain_unless_empty a ++ plain_unless_empty c.
Proof.
  intros Ha Ha' Hc. rewrite attempt_to_parse_markdown_runs.
  destruct (finditer _) as [|m ms] eqn:Hm.
  { apply finditer_nil in Hm. destruct Hm. by exists a, "", c. }
  rewrite runs_prefix by done. simpl (_ +:+ a).
  rewrite (runs_match _ _ 0) by (by apply (match_at_exact "" c)).
  replace (PyStr.drop (0 + 4) ("****" +:+ c)) with c by done.
  simpl. by rewrite runs_no_pair by done.
Qed.

Lemma empty_pair_splits_witness :
  attempt_to_parse_markdown ("Led " +:+ "****" +:+ "team")
  = plain_unless_empty "Led " ++ plain_unless_empty "team".
Proof.
  apply (empty_pair_splits "Led " "team"); try reflexivity.
  apply finditer_nil. reflexivity.
Defined.

(** ** The file of the template *)

Section strip_facts.
Implicit Types (s t x ws : string) (c : ascii).

Lemma py_rstrip_cons c s :
  py_isspace c = false -> py_rstrip (String c s) = String c (py_rstrip s).
Proof. intros Hc. simpl. rewrite Hc. by destruct (py_rstrip s). Qed.

(** What [rstrip] cuts off is white space, and what it leaves does not end
    in white space. *)
Lemma py_rstrip_split s :
  exists ws, s = py_rstrip s +:+ ws /\ all_space ws = true
    /\ ends_with_space (py_rstrip s) = false.
Proof.
  induction s as [|c s (ws & Hs & Hws & He)]; [by exists ""|].
  simpl. destruct (py_rstrip s) as [|y r] eqn:Hr.
  - destruct (py_isspace c) eqn:Hc.
    + simpl in Hs. subst s. exists (String c ws). simpl.
      by rewrite Hc, Hws.
    + exists ws. simpl in Hs |- *. rewrite Hc. by subst s.
  - exists ws. split; [simpl in Hs |- *; by rewrite <-Hs|]. split; [done|].
    exact He.
Qed.
End strip_facts.

(** X8: the file looked up for a template name is the name between [./]
    and [.docx] with its trailing white space cut off; white space at the
    head of the name stays. *)
Theorem template_file_shape (template_path : string) :
  exists x ws,
    template_path = x +:+ ws /\ all_space ws = true
    /\ ends_with_space x = false
    /\ template_file template_path = "./" +:+ x +:+ ".docx".
Proof.
  destruct (py_rstrip_split template_path) as (ws & Hs & Hws & He).
  exists (py_rstrip template_path), ws. repeat split; try done.
  unfold template_file, py_strip.
  change (py_lstrip ("./" +:+ template_path)) with ("./" +:+ template_path).
  change ("./" +:+ template_path) with (String "." (String "/" template_path)).
  by rewrite !py_rstrip_cons by done.
Qed.

(** ** The store stays without dangling references *)

Section closed_facts.
Implicit Types (h g : heap) (l r : loc) (v x : pyval) (D : gset loc) (o : pyobj).

Lemma bind_inv {A B : Type} (m : M A) (f : A -> M B) h b h' :
  (m ≫= f) h = Some (b, h') ->
  exists a h1, m h = Some (a, h1) /\ f a h1 = Some (b, h').
Proof.
  unfold mbind, M_bind. destruct (m h) as [[a h1]|]; [|done]. eauto.
Qed.

Lemma val_closed_mono D D' v : D ⊆ D' -> val_closed D v -> val_closed D' v.
Proof. intros HD. destruct v; simpl; try done. apply HD. Qed.

Lemma obj_closed_mono D D' o : D ⊆ D' -> obj_closed D o -> obj_closed D' o.
Proof.
  intros HD. destruct o as [xs|d|rt]; simpl; [| |done].
  - intros H. eapply Forall_impl; [exact H|].
    intros v. by apply val_closed_mono.
  - intros H. eapply map_Forall_impl; [exact H|].
    intros k v. by apply val_closed_mono.
Qed.

Lemma heap_closed_insert h l o :
  heap_closed h -> obj_closed ({[l]} ∪ dom h) o -> heap_closed (<[l := o]> h).
Proof.
  intros Hh Ho. unfold heap_closed. rewrite dom_insert_L.
  apply map_Forall_insert_2; [done|].
  eapply map_Forall_impl; [exact Hh|]. intros l' o'. simpl.
  apply obj_closed_mono, union_subseteq_r.
Qed.

Lemma alloc_closed o h v h' :
  heap_closed h -> obj_closed (dom h) o -> alloc o h = Some (v, h') ->
  heap_closed h' /\ dom h ⊆ dom h' /\ val_closed (dom h') v.
Proof.
  intros Hh Ho [= <- <-]. rewrite dom_insert_L. split; [|split].
  - apply heap_closed_insert; [done|].
    by apply (obj_closed_mono (dom h)); [apply union_subseteq_r|].
  - apply union_subseteq_r.
  - simpl. apply elem_of_union_l. by apply elem_of_singleton.
Qed.

Lemma list_append_closed v x h h' :
  heap_closed h -> val_closed (dom h) x ->
  list_append v x h = Some (tt, h') ->
  heap_closed h' /\ dom h ⊆ dom h'.
Proof.
  intros Hh Hx. unfold list_append. destruct v as [| | | | |l]; try done.
  destruct (h !! l) as [[xs| |]|] eqn:Hl; try done. intros [= <-].
  split; [|apply dom_insert_subseteq].
  apply heap_closed_insert; [done|].
  apply (obj_closed_mono (dom h)); [apply union_subseteq_r|]. simpl.
  apply Forall_app_2; [apply (Hh l _ Hl)|by apply Forall_singleton].
Qed.

Lemma dict_setitem_closed v key x h h' :
  heap_closed h -> val_closed (dom h) x ->
  dict_setitem v key x h = Some (tt, h') ->
  heap_closed h' /\ dom h ⊆ dom h'.
Proof.
  intros Hh Hx. unfold dict_setitem. destruct v as [| | | | |l]; try done.
  destruct (h !! l) as [[|d|]|] eqn:Hl; try done. intros [= <-].
  split; [|apply dom_insert_subseteq].
  apply heap_closed_insert; [done|].
  apply (obj_closed_mono (dom h)); [apply union_subseteq_r|]. simpl.
  apply map_Forall_insert_2; [done|apply (Hh l _ Hl)].
Qed.

Lemma process_item_closed pl x h h' :
  heap_closed h -> val_closed (dom h) x ->
  process_item pl x h = Some (tt, h') ->
  heap_closed h' /\ dom h ⊆ dom h'.
Proof.
  intros Hh Hx. unfold process_item. destruct (as_str x) as [s|].
  - intros (rt & h1 & Ha & Happ)%bind_inv.
    destruct (alloc_closed (ORichText (attempt_to_parse_markdown s)) _ _ _
                Hh I Ha) as (Hh1 & Hsub1 & Hrt).
    destruct (list_append_closed _ _ _ _ Hh1 Hrt Happ) as [Hh' Hsub].
    split; [done|by etrans].
  - by apply list_append_closed.
Qed.

Lemma process_items_closed pl xs h h' :
  heap_closed h -> Forall (val_closed (dom h)) xs ->
  for_each xs (process_item pl) h = Some (tt, h') ->
  heap_closed h' /\ dom h ⊆ dom h'.
Proof.
  revert h; induction xs as [|x xs IH]; intros h Hh Hxs.
  - by intros [= <-].
  - apply Forall_cons in Hxs as [Hx Hxs]. cbn [for_each].
    intros ([] & h1 & Hx1 & Hrest)%bind_inv.
    destruct (process_item_closed _ _ _ _ Hh Hx Hx1) as [Hh1 Hsub1].
    destruct (IH h1 Hh1) as [Hh' Hsub]; [|done|split; [done|by etrans]].
    eapply Forall_impl; [exact Hxs|]. intros v. by apply val_closed_mono.
Qed.

Lemma process_entry_closed pc key v h h' :
  heap_closed h -> val_closed (dom h) v ->
  process_entry pc (key, v) h = Some (tt, h') ->
  heap_closed h' /\ dom h ⊆ dom h'.
Proof.
  intros Hh Hv. unfold process_entry.
  intros (is_list & h0 & [= <- <-] & Hrun)%bind_inv. revert Hrun.
  destruct (bool_decide (key ∈ list_fields) && _).
  - intros (pl & h1 & Ha & Hrun)%bind_inv.
    destruct (alloc_closed (OList []) _ _ _ Hh (Forall_nil_2 _) Ha)
      as (Hh1 & Hsub1 & Hpl).
    apply bind_inv in Hrun as (xs & h1' & Hitems & Hrun).
    apply bind_inv in Hrun as ([] & h2 & Hloop & Hset).
    assert (h1' = h1 /\ Forall (val_closed (dom h1)) xs) as [-> Hxs].
    { revert Hitems. unfold list_items. destruct v as [| | | | |l]; try done.
      destruct (h1 !! l) as [[ys| |]|] eqn:Hl; try done. intros [= <- <-].
      split; [done|apply (Hh1 l _ Hl)]. }
    destruct (process_items_closed _ _ _ _ Hh1 Hxs Hloop) as [Hh2 Hsub2].
    destruct (dict_setitem_closed _ _ _ _ _ Hh2
                (val_closed_mono _ _ _ Hsub2 Hpl) Hset) as [Hh' Hsub].
    split; [done|]. etrans; [exact Hsub1|]. by etrans.
  - destruct (if bool_decide (key ∈ scalar_fields) then _ else _) as [s|].
    + intros (rt & h1 & Ha & Hset)%bind_inv.
      destruct (alloc_closed (ORichText (attempt_to_parse_markdown s)) _ _ _
                Hh I Ha) as (Hh1 & Hsub1 & Hrt).
      destruct (dict_setitem_closed _ _ _ _ _ Hh1 Hrt Hset) as [Hh' Hsub].
      split; [done|by etrans].
    + by apply dict_setitem_closed.
Qed.

Lemma process_entries_closed pc (entries : list (string * pyval)) h h' :
  heap_closed h -> Forall (fun e => val_closed (dom h) e.2) entries ->
  for_each entries (process_entry pc) h = Some (tt, h') ->
  heap_closed h' /\ dom h ⊆ dom h'.
Proof.
  revert h; induction entries as [|[key v] entries IH]; intros h Hh Hes.
  - by intros [= <-].
  - apply Forall_cons in Hes as [He Hes]. cbn [for_each].
    intros ([] & h1 & He1 & Hrest)%bind_inv.
    destruct (process_entry_closed _ _ _ _ _ Hh He He1) as [Hh1 Hsub1].
    destruct (IH h1 Hh1) as [Hh' Hsub]; [|done|split; [done|by etrans]].
    eapply Forall_impl; [exact Hes|]. intros e. by apply val_closed_mono.
Qed.

(** Whatever the rewriter returns, it leaves a store without dangling
    references, and what it returns is in that store. *)
Lemma process_context_closed v h (out : pyval) h' :
  heap_closed h ->
  process_context_for_richtext v h = Some (out, h') ->
  heap_closed h' /\ dom h ⊆ dom h' /\ val_closed (dom h') out.
Proof.
  intros Hh. unfold process_context_for_richtext.
  intros (pc & h1 & Ha & Hrun)%bind_inv.
  destruct (alloc_closed (ODict ∅) _ _ _ Hh (map_Forall_empty _) Ha)
    as (Hh1 & Hsub1 & Hpc).
  apply bind_inv in Hrun as (entries & h1' & Hitems & Hrun).
  apply bind_inv in Hrun as ([] & h2 & Hloop & [= <- <-]).
  assert (h1' = h1 /\ Forall (fun e => val_closed (dom h1) e.2) entries)
    as [-> Hes].
  { revert Hitems. unfold dict_items. destruct v as [| | | | |l]; try done.
    destruct (h1 !! l) as [[|d|]|] eqn:Hl; try done. intros [= <- <-].
    split; [done|]. apply Forall_forall. intros [key x] Hin.
    apply elem_of_map_to_list in Hin. apply (Hh1 l _ Hl key x Hin). }
  destruct (process_entries_closed _ _ _ _ Hh1 Hes Hloop) as [Hh2 Hsub2].
  split; [done|]. split; [by etrans|]. by apply (val_closed_mono (dom h1)).
Qed.
End closed_facts.

(** ** More on the context rewriter *)

Section rewriter_more.
Implicit Types (h : heap) (c r l : loc) (v : pyval) (D : gset loc).
Implicit Types (d : gmap string pyval) (key : string).

(** A scalar field that holds a string gets a new [RichText]. *)
Lemma entry_rewritten_str D h h' key s v' :
  entry_rewritten D h h' key (PStr s) v' -> key ∈ scalar_fields ->
  exists l, v' = PRef l /\ (l ∉ D)
    /\ h' !! l = Some (ORichText (attempt_to_parse_markdown s)).
Proof.
  intros [xs l ys _ Hxs _ _ _|s' l _ Hs Hl Hrt|_ Hs] Hkey.
  - done.
  - injection Hs as <-. by exists l.
  - by destruct Hs.
Qed.

Lemma item_rewritten_no_str D h' x y : item_rewritten D h' x y -> as_str y = None.
Proof.
  unfold item_rewritten. destruct (as_str x) eqn:Hx.
  - by intros (l & -> & _).
  - by intros ->.
Qed.

Lemma item_rewritten_id D h' (ys zs : list pyval) :
  Forall (fun y => as_str y = None) ys ->
  Forall2 (item_rewritten D h') ys zs -> zs = ys.
Proof.
  intros Hys Hzs. induction Hzs as [|y z ys zs Hyz _ IH]; [done|].
  apply Forall_cons in Hys as [Hy Hys]. unfold item_rewritten in Hyz.
  rewrite Hy in Hyz. by rewrite Hyz, IH.
Qed.

(** After a pass no classified field holds a string any more, nor does a
    list field hold a list with a string in it. *)
Lemma entry_rewritten_no_str D h h' key v v' :
  h ⊆ h' -> val_closed (dom h) v ->
  entry_rewritten D h h' key v v' ->
  (key ∈ scalar_fields -> as_str v' = None)
  /\ (key ∈ list_fields -> forall ys, list_at h' v' = Some ys ->
        Forall (fun y => as_str y = None) ys).
Proof.
  intros Hsub Hv [xs l ys Hkey Hxs Hl Hys Hitems|s l Hkey Hs Hl Hrt|Hlist Hs].
  - split; [done|]. intros _ ys'. unfold list_at. rewrite Hys. intros [= <-].
    clear Hys Hxs. induction Hitems as [|x y xs ys Hxy _ IH]; [done|].
    constructor; [by apply item_rewritten_no_str in Hxy|done].
  - split; [done|]. intros Hkey'. destruct (fields_disjoint key Hkey' Hkey).
  - split; [intros Hkey; by destruct Hs|].
    intros Hkey ys Hys. destruct Hlist as [?|Hlist]; [done|].
    exfalso. revert Hlist Hys. unfold list_at.
    destruct v as [| | | | |l]; try done. simpl in Hv.
    apply elem_of_dom in Hv as [o Ho].
    rewrite Ho, (lookup_weaken _ _ _ _ Ho Hsub). by destruct o.
Qed.
End rewriter_more.

(** X9: a scalar field that holds a string gets in the output a new
    [RichText] object whose runs are the translation of the string. *)
Theorem scalar_field_translated (h : heap) (c : loc) (d : gmap string pyval)
    (key s : string) :
  heap_closed h -> h !! c = Some (ODict d) ->
  key ∈ scalar_fields -> d !! key = Some (PStr s) ->
  exists r h' d' l,
    process_context_for_richtext (PRef c) h = Some (PRef r, h')
    /\ dict_at h' (PRef r) = Some d'
    /\ d' !! key = Some (PRef l) /\ (l ∉ dom h)
    /\ richtext_at h' (PRef l) = Some (attempt_to_parse_markdown s).
Proof.
  intros Hclosed Hc Hkey Hv.
  destruct (process_context_spec h c d Hclosed Hc)
    as (r & h' & d' & Hrun & _ & _ & Hr & _ & Hentries).
  destruct (Hentries key _ Hv) as (v' & Hv' & Hrew).
  destruct (entry_rewritten_str _ _ _ _ _ _ Hrew Hkey) as (l & -> & Hl & Hrt).
  exists r, h', d', l. split; [done|]. split; [by apply dict_at_lookup|].
  split; [done|]. split; [by intros ?; apply Hl, elem_of_union_r|].
  unfold richtext_at. by rewrite Hrt.
Qed.

Lemma scalar_field_translated_witness :
  exists r h' d' l,
    process_context_for_richtext (PRef 1%positive) example_heap = Some (PRef r, h')
    /\ dict_at h' (PRef r) = Some d'
    /\ d' !! "ENGAGEMENT_SUMMARY_CH" = Some (PRef l) /\ (l ∉ dom example_heap)
    /\ richtext_at h' (PRef l)
       = Some (attempt_to_parse_markdown "Led **two** teams").
Proof.
  apply (scalar_field_translated example_heap 1%positive example_context
           "ENGAGEMENT_SUMMARY_CH" "Led **two** teams").
  - apply (bool_decide_unpack _). by vm_compute.
  - reflexivity.
  - apply (bool_decide_unpack _). by vm_compute.
  - reflexivity.
Defined.

(** X10: called on a value of the store that is not a dict, the rewriter
    raises: there is nothing to take [items] of. *)
Theorem not_a_dict_raises (h : heap) (v : pyval) :
  val_closed (dom h) v -> dict_at h v = None ->
  process_context_for_richtext v h = None.
Proof.
  intros Hv Hd. unfold process_context_for_richtext, mbind, M_bind, alloc.
  cbn beta iota. unfold dict_items.
  destruct v as [| | | | |l]; try done. simpl in Hv.
  rewrite lookup_insert_ne
    by (intros <-; by apply (is_fresh (dom h))).
  unfold dict_at in Hd. by destruct (h !! l) as [[| |]|].
Qed.

Lemma not_a_dict_raises_witness :
  process_context_for_richtext (PRef 2%positive) example_heap = None.
Proof.
  apply (not_a_dict_raises example_heap (PRef 2%positive)).
  - apply (bool_decide_unpack _). by vm_compute.
  - reflexivity.
Defined.

(** X11: the store the rewriter leaves has no dangling reference, holds
    every address of the store it started from, and holds the dict
    returned. *)
Theorem store_stays_closed (h : heap) (c : loc) (d : gmap string pyval) :
  heap_closed h -> h !! c = Some (ODict d) ->
  exists r h',
    process_context_for_richtext (PRef c) h = Some (PRef r, h')
    /\ heap_closed h' /\ dom h ⊆ dom h' /\ r ∈ dom h'.
Proof.
  intros Hclosed Hc.
  destruct (process_context_spec h c d Hclosed Hc)
    as (r & h' & d' & Hrun & _).
  exists r, h'. split; [done|].
  by apply (process_context_closed (PRef c) h (PRef r)).
Qed.

Lemma store_stays_closed_witness :
  exists r h',
    process_context_for_richtext (PRef 1%positive) example_heap = Some (PRef r, h')
    /\ heap_closed h' /\ dom example_heap ⊆ dom h' /\ r ∈ dom h'.
Proof.
  apply (store_stays_closed example_heap 1%positive example_context).
  - apply (bool_decide_unpack _). by vm_compute.
  - reflexivity.
Defined.

(** X12: a second pass over the output of the rewriter translates
    nothing and leaves the first output as it is. It returns a dict with
    the same keys; the list of a list field has given way to a new list,
    at an address the store did not have, with the very same elements;
    every other value is the very value of the first output. *)
Theorem second_pass_translates_nothing (h : heap) (c : loc)
    (d : gmap string pyval) :
  heap_closed h -> h !! c = Some (ODict d) ->
  exists r h' d' r2 h2 d2,
    process_context_for_richtext (PRef c) h = Some (PRef r, h')
    /\ dict_at h' (PRef r) = Some d'
    /\ process_context_for_richtext (PRef r) h' = Some (PRef r2, h2)
    /\ h' ⊆ h2 /\ (r2 ∉ dom h')
    /\ dict_at h2 (PRef r2) = Some d2
    /\ dom d2 = dom d'
    /\ forall key v', d' !! key = Some v' ->
         exists v2, d2 !! key = Some v2
           /\ (key ∈ list_fields -> forall ys, list_at h' v' = Some ys ->
                 exists l2, v2 = PRef l2 /\ (l2 ∉ dom h') /\ v2 <> v'
                   /\ list_at h2 v2 = Some ys)
           /\ (key ∉ list_fields \/ list_at h' v' = None -> v2 = v').
Proof.
  intros Hclosed Hc.
  destruct (process_context_spec h c d Hclosed Hc)
    as (r & h' & d' & Hrun & _ & Hsub & Hr & Hdom & Hentries).
  destruct (process_context_closed _ _ _ _ Hclosed Hrun) as (Hclosed' & _ & _).
  destruct (process_context_spec h' r d' Hclosed' Hr)
    as (r2 & h2 & d2 & Hrun2 & Hfresh2 & Hsub2 & Hr2 & Hdom2 & Hentries2).
  exists r, h', d', r2, h2, d2. split; [done|].
  split; [by apply dict_at_lookup|]. split; [done|].
  split; [done|]. split; [done|].
  split; [by apply dict_at_lookup|]. split; [done|].
  intros key v' Hv'.
  destruct (Hentries2 key v' Hv') as (v2 & Hv2 & Hrew2).
  exists v2. split; [done|].
  assert (exists v, d !! key = Some v) as [v Hv].
  { apply elem_of_dom. rewrite <-Hdom. apply elem_of_dom. eauto. }
  destruct (Hentries key v Hv) as (v'' & Hv'' & Hrew).
  assert (v'' = v') as -> by congruence.
  destruct (entry_rewritten_no_str _ _ _ _ _ _ Hsub (Hclosed c _ Hc key v Hv) Hrew)
    as [Hscalar Hlist].
  destruct Hrew2 as [ys l zs Hkey Hys Hl Hzs Hitems|s l Hkey Hs _ _|Hnolist _].
  - assert (l ∉ dom h') as Hl' by (intros ?; by apply Hl, elem_of_union_r).
    split.
    + intros _ ys' Hys'. assert (ys' = ys) as -> by congruence.
      exists l. split; [done|]. split; [done|]. split.
      * intros <-. apply Hl'. unfold list_at in Hys.
        destruct (h' !! l) eqn:E; [|done]. by apply in_dom_Some in E.
      * unfold list_at. rewrite Hzs. f_equal.
        apply (item_rewritten_id _ _ _ _ (Hlist Hkey ys Hys) Hitems).
    + intros [Hno|Hno]; [done|congruence].
  - rewrite (Hscalar Hkey) in Hs. discriminate Hs.
  - split; [|done]. intros Hkey ys Hys.
    destruct Hnolist as [?|Hno]; [done|congruence].
Qed.

Lemma second_pass_translates_nothing_witness :
  exists r h' d' r2 h2 d2,
    process_context_for_richtext (PRef 1%positive) example_heap = Some (PRef r, h')
    /\ dict_at h' (PRef r) = Some d'
    /\ process_context_for_richtext (PRef r) h' = Some (PRef r2, h2)
    /\ h' ⊆ h2 /\ (r2 ∉ dom h')
    /\ dict_at h2 (PRef r2) = Some d2
    /\ dom d2 = dom d'
    /\ forall key v', d' !! key = Some v' ->
         exists v2, d2 !! key = Some v2
           /\ (key ∈ list_fields -> forall ys, list_at h' v' = Some ys ->
                 exists l2, v2 = PRef l2 /\ (l2 ∉ dom h') /\ v2 <> v'
                   /\ list_at h2 v2 = Some ys)
           /\ (key ∉ list_fields \/ list_at h' v' = None -> v2 = v').
Proof.
  apply (second_pass_translates_nothing example_heap 1%positive example_context).
  - apply (bool_decide_unpack _). by vm_compute.
  - reflexivity.
Defined.
